(** * ReRight: the file-name sanitizer

    A shallow embedding of [src/file_sanitizer/core/sanitize.py]:
    the pure name transform [sanitize_name], and the tree renamer
    ([rename_item], [rename_files], [run_sanitizer]) over a model of a
    POSIX directory tree, a log sink and a trace of filesystem calls.

    Python strings are sequences of Unicode code points: a string is a
    [list N].  [unicodedata.normalize] belongs to the Python runtime, not
    to the repository; the transform takes it as a parameter [nfkd], and
    the theorems that need it assume the one fact of Unicode normalisation
    they use: NFKD leaves a string of ASCII characters as it is. *)

From Stdlib Require Import List NArith Arith Bool Lia String Ascii Permutation Sorted.
Import ListNotations.

Local Open Scope N_scope.
Local Open Scope list_scope.

(** ** Strings *)

Definition codepoint := N.
Definition str := list codepoint.

Definition str_of (s : string) : str := map N_of_ascii (list_ascii_of_string s).

Definition hyphen : codepoint := 45.
Definition dot : codepoint := 46.

Definition is_hyphen (c : codepoint) : bool := c =? hyphen.
Definition is_dot (c : codepoint) : bool := c =? dot.
Definition is_ascii (c : codepoint) : bool := c <? 128.
Definition is_upper (c : codepoint) : bool := (65 <=? c) && (c <=? 90).
Definition is_lower (c : codepoint) : bool := (97 <=? c) && (c <=? 122).
Definition is_digit (c : codepoint) : bool := (48 <=? c) && (c <=? 57).

Fixpoint str_eqb (a b : str) : bool :=
  match a, b with
  | [], [] => true
  | x :: a', y :: b' => (x =? y) && str_eqb a' b'
  | _, _ => false
  end.

(** ** The name transform *)

(** [name.encode("ascii", "ignore").decode("ascii")]: the code points with
    no ASCII encoding are dropped, the others stand. *)
Definition encode_ascii_ignore (s : str) : str := filter is_ascii s.

(** [str.lower] as it acts on the ASCII string it receives here. *)
Definition lower_cp (c : codepoint) : codepoint :=
  if is_upper c then c + 32 else c.

Definition lower (s : str) : str := map lower_cp s.

(** The character class [[a-z0-9.]] and its complement [[^a-z0-9.]]. *)
Definition keep (c : codepoint) : bool := is_lower c || is_digit c || is_dot c.
Definition not_keep (c : codepoint) : bool := negb (keep c).

(** [re.sub(r"[cls]+", repl, s)]: scanning from the left, every maximal
    run of characters of the class is replaced by one [repl].  [in_run]
    tells that the character before the head was of the class, so that the
    run it belongs to has been replaced already. *)
Fixpoint sub_runs (cls : codepoint -> bool) (repl : str) (in_run : bool)
  (s : str) : str :=
  match s with
  | [] => []
  | c :: t =>
      if cls c
      then (if in_run then [] else repl) ++ sub_runs cls repl true t
      else c :: sub_runs cls repl false t
  end.

Definition re_sub_plus (cls : codepoint -> bool) (repl s : str) : str :=
  sub_runs cls repl false s.

(** [str.lstrip(chars)], [str.rstrip(chars)] and [str.strip(chars)]. *)
Fixpoint lstrip (chars : codepoint -> bool) (s : str) : str :=
  match s with
  | [] => []
  | c :: t => if chars c then lstrip chars t else s
  end.

Fixpoint rstrip (chars : codepoint -> bool) (s : str) : str :=
  match s with
  | [] => []
  | c :: t =>
      match rstrip chars t with
      | [] => if chars c then [] else [c]
      | r => c :: r
      end
  end.

Definition strip (chars : codepoint -> bool) (s : str) : str :=
  rstrip chars (lstrip chars s).

Section NameTransform.

(** [unicodedata.normalize("NFKD", _)]. *)
Variable nfkd : str -> str.

Definition sanitize_name (name : str) : str :=
  (* 1. Decompose accents *)
  let name := nfkd name in
  let name := encode_ascii_ignore name in
  (* 2. Lowercase *)
  let name := lower name in
  (* 3. Replace spaces and special chars with a hyphen *)
  let name := re_sub_plus not_keep [hyphen] name in
  (* 4. Clean up: collapse multiple hyphens, remove leading/trailing ones *)
  let name := re_sub_plus is_hyphen [hyphen] name in
  let name := strip is_hyphen name in
  name.

End NameTransform.

(** The decomposition table of NFKD for the code points below U+0100
    (Basic Latin has none; Latin-1 Supplement as in UnicodeData.txt).  It
    is the instance of [nfkd] at which the transform is run on test
    vectors; code points from U+0100 on stand for themselves in it. *)
Definition latin1_decomposition : list (codepoint * str) :=
  [ (160, [32]); (168, [32; 776]); (170, [97]); (175, [32; 772]);
    (178, [50]); (179, [51]); (180, [32; 769]); (181, [956]);
    (184, [32; 807]); (185, [49]); (186, [111]);
    (188, [49; 8260; 52]); (189, [49; 8260; 50]); (190, [51; 8260; 52]);
    (192, [65; 768]); (193, [65; 769]); (194, [65; 770]); (195, [65; 771]);
    (196, [65; 776]); (197, [65; 778]); (199, [67; 807]);
    (200, [69; 768]); (201, [69; 769]); (202, [69; 770]); (203, [69; 776]);
    (204, [73; 768]); (205, [73; 769]); (206, [73; 770]); (207, [73; 776]);
    (209, [78; 771]);
    (210, [79; 768]); (211, [79; 769]); (212, [79; 770]); (213, [79; 771]);
    (214, [79; 776]);
    (217, [85; 768]); (218, [85; 769]); (219, [85; 770]); (220, [85; 776]);
    (221, [89; 769]);
    (224, [97; 768]); (225, [97; 769]); (226, [97; 770]); (227, [97; 771]);
    (228, [97; 776]); (229, [97; 778]); (231, [99; 807]);
    (232, [101; 768]); (233, [101; 769]); (234, [101; 770]);
    (235, [101; 776]);
    (236, [105; 768]); (237, [105; 769]); (238, [105; 770]);
    (239, [105; 776]);
    (241, [110; 771]);
    (242, [111; 768]); (243, [111; 769]); (244, [111; 770]);
    (245, [111; 771]); (246, [111; 776]);
    (249, [117; 768]); (250, [117; 769]); (251, [117; 770]);
    (252, [117; 776]);
    (253, [121; 769]); (255, [121; 776]) ].

Fixpoint decompose_in (table : list (codepoint * str)) (c : codepoint) : str :=
  match table with
  | [] => [c]
  | (k, d) :: rest => if c =? k then d else decompose_in rest c
  end.

Definition nfkd_latin1 (s : str) : str :=
  flat_map (decompose_in latin1_decomposition) s.

(** ** Well-formed names *)

Definition allowed (c : codepoint) : bool := keep c || is_hyphen c.

Record well_formed (s : str) : Prop := {
  wf_alphabet : Forall (fun c => allowed c = true) s;
  wf_no_leading : forall t, s <> hyphen :: t;
  wf_no_trailing : forall t, s <> t ++ [hyphen];
  wf_no_double : forall a b, s <> a ++ hyphen :: hyphen :: b
}.

Definition head_hyphen (s : str) : bool :=
  match s with
  | c :: _ => is_hyphen c
  | [] => false
  end.

Fixpoint last_hyphen (s : str) : bool :=
  match s with
  | [] => false
  | [c] => is_hyphen c
  | _ :: t => last_hyphen t
  end.

Fixpoint double_hyphen (s : str) : bool :=
  match s with
  | [] => false
  | c :: t => (is_hyphen c && head_hyphen t) || double_hyphen t
  end.

Definition well_formedb (s : str) : bool :=
  forallb allowed s && negb (head_hyphen s) && negb (last_hyphen s)
  && negb (double_hyphen s).

(** ** Paths

    The renamer is handed absolute paths ([resolve_path=True] on the
    command line): a path is the list of its segments below the root
    directory, and [p.parts] is the root followed by the segments. *)

Definition path := list str.

Definition slash : codepoint := 47.

Fixpoint path_eqb (p q : path) : bool :=
  match p, q with
  | [], [] => true
  | a :: p', b :: q' => str_eqb a b && path_eqb p' q'
  | _, _ => false
  end.

(** [len(p.parts)] *)
Definition parts_len (p : path) : nat := S (List.length p).

(** [p.name]: the last segment, empty for the root. *)
Definition name (p : path) : str := last p [].

Inductive exn : Type :=
| ValueError_empty_name (p : path)
| ValueError_invalid_name (n : str)
| FileNotFoundError (p : path)
| NotADirectoryError (p : path)
| IsADirectoryError (p : path)
| PermissionError (p : path)
| OSError (p : path)
| BadParameter (p : path).

(** [PurePath.with_name]: a path without a name has none to replace, and
    the new name must be one segment: not empty, not ["."], without a
    separator.  Both failures are [ValueError]s. *)
Definition invalid_name (n : str) : bool :=
  match n with
  | [] => true
  | _ => existsb (N.eqb slash) n || str_eqb n [dot]
  end.

Definition with_name (p : path) (new : str) : exn + path :=
  match name p with
  | [] => inl (ValueError_empty_name p)
  | _ =>
      if invalid_name new then inl (ValueError_invalid_name new)
      else inr (removelast p ++ [new])
  end.

(** ** The directory tree

    Files, directories with their write permission, and dangling links:
    symbolic links whose target does not exist.  A dangling link is an
    entry of its directory (a listing shows it, a rename moves or
    replaces it) that [stat] does not find.  Links with a live target are
    not in the model. *)

#[warnings="-register-all"] Inductive node : Type :=
| File
| Dir (writable : bool) (entries : list (str * node))
| DanglingLink.

Inductive kind : Type := FILE | FOLDER.

Fixpoint lookup_entry (k : str) (es : list (str * node)) : option node :=
  match es with
  | [] => None
  | (k', n) :: t => if str_eqb k k' then Some n else lookup_entry k t
  end.

(** Path resolution from a directory [cur] whose chain of parents is [up]:
    ["."] stays, [".."] goes up (the root is its own parent), a name goes
    down into the entry of that name.  Resolution follows symbolic links,
    as [stat] does; the one kind of link in the model is the dangling one,
    whose target does not exist, so a path that reaches one resolves to
    nothing. *)
Fixpoint resolve_from (up : list node) (cur : node) (p : path) : option node :=
  match p with
  | [] =>
      match cur with
      | DanglingLink => None
      | _ => Some cur
      end
  | seg :: rest =>
      match cur with
      | File | DanglingLink => None
      | Dir _ es =>
          if str_eqb seg [dot] then resolve_from up cur rest
          else if str_eqb seg [dot; dot] then
            match up with
            | [] => resolve_from [] cur rest
            | d :: up' => resolve_from up' d rest
            end
          else
            match lookup_entry seg es with
            | Some n => resolve_from (cur :: up) n rest
            | None => None
            end
      end
  end.

Definition resolve (root : node) (p : path) : option node :=
  resolve_from [] root p.

Definition fs_exists (root : node) (p : path) : bool :=
  match resolve root p with
  | Some _ => true
  | None => false
  end.

Definition fs_is_dir (root : node) (p : path) : bool :=
  match resolve root p with
  | Some (Dir _ _) => true
  | _ => false
  end.

(** [Path.rglob("*")] below a directory [n] of path [pre]: the entries of
    the directory in listing order, then the same for each of its
    subdirectories in turn.  A path that is not a directory has none. *)
Fixpoint descendants (pre : path) (n : node) : list path :=
  match n with
  | File | DanglingLink => []
  | Dir _ es =>
      map (fun e => pre ++ [fst e]) es
      ++ flat_map (fun e => descendants (pre ++ [fst e]) (snd e)) es
  end.

Definition fs_rglob (root : node) (p : path) : list path :=
  match resolve root p with
  | Some n => descendants p n
  | None => []
  end.

(** The names a directory entry can have. *)
Definition valid_name (n : str) : bool :=
  match n with
  | [] => false
  | _ =>
      negb (existsb (N.eqb slash) n) && negb (existsb (N.eqb 0) n)
      && negb (str_eqb n [dot]) && negb (str_eqb n [dot; dot])
  end.

(** The bytes a name takes on disk ([os.fsencode]: UTF-8, an escaped
    surrogate standing for the one byte it came from), and the bound the
    system puts on a name that is looked for ([NAME_MAX]). *)
Definition utf8_len (c : codepoint) : nat :=
  if c <? 128 then 1%nat
  else if c <? 2048 then 2%nat
  else if (56448 <=? c) && (c <=? 56575) then 1%nat
  else if c <? 65536 then 3%nat
  else 4%nat.

Definition name_bytes (n : str) : nat := list_sum (map utf8_len n).

Definition NAME_MAX : nat := 255.

Definition name_fits (n : str) : bool := Nat.leb (name_bytes n) NAME_MAX.

Fixpoint rename_entry (old new : str) (es : list (str * node))
  : list (str * node) :=
  match es with
  | [] => []
  | (k, n) :: t =>
      if str_eqb k old then (new, n) :: t else (k, n) :: rename_entry old new t
  end.

Fixpoint remove_entry (k : str) (es : list (str * node)) : list (str * node) :=
  match es with
  | [] => []
  | (k', n) :: t => if str_eqb k' k then t else (k', n) :: remove_entry k t
  end.

(** The tree with the entries of the directory at [dir] replaced by [f]
    of them. *)
Fixpoint update_dir (n : node) (dir : path)
  (f : list (str * node) -> list (str * node)) : node :=
  match n with
  | File => File
  | DanglingLink => DanglingLink
  | Dir w es =>
      match dir with
      | [] => Dir w (f es)
      | seg :: rest =>
          Dir w (map (fun e =>
                        if str_eqb (fst e) seg
                        then (fst e, update_dir (snd e) rest f)
                        else e) es)
      end
  end.

(** Whether the resolution of [p] stops at a file with segments still to
    go: the case in which the system answers [ENOTDIR] rather than
    [ENOENT]. *)
Fixpoint not_a_directory (up : list node) (cur : node) (p : path) : bool :=
  match p with
  | [] => false
  | seg :: rest =>
      match cur with
      | File => true
      | DanglingLink => false
      | Dir _ es =>
          if str_eqb seg [dot] then not_a_directory up cur rest
          else if str_eqb seg [dot; dot] then
            match up with
            | [] => not_a_directory [] cur rest
            | d :: up' => not_a_directory up' d rest
            end
          else
            match lookup_entry seg es with
            | Some n => not_a_directory (cur :: up) n rest
            | None => false
            end
      end
  end.

(** [os.rename(src, dst)] for a [dst] in the directory of [src], which is
    all [rename_item] asks for ([dst] comes from [with_name]).  The
    directory of the source must resolve ([NotADirectoryError] when the
    way to the source goes through a file, [FileNotFoundError] when it
    breaks off) and hold the source, which is taken as it is, a link not
    followed ([FileNotFoundError] when it is not there, the plain
    [OSError] of a name too long when it could not be); the directory
    must be writable; a free target name takes the
    entry; an occupied one is replaced when POSIX allows it (a file or a
    link by a file or a link, an empty directory by a directory). *)
Definition os_rename (root : node) (src dst : path) : exn + node :=
  let dir := removelast src in
  match resolve root dir with
  | Some (Dir w es) =>
      if negb (valid_name (name src)) then inl (OSError src)
      else
        match lookup_entry (name src) es with
        | None =>
            inl (if name_fits (name src) then FileNotFoundError src
                 else OSError src)
        | Some n =>
            if negb (path_eqb (removelast dst) dir)
               || negb (valid_name (name dst))
            then inl (OSError src)
            else if negb w then inl (PermissionError src)
            else if str_eqb (name src) (name dst) then inr root
            else
              let move :=
                update_dir root dir (rename_entry (name src) (name dst)) in
              let replace :=
                update_dir root dir
                  (fun es => rename_entry (name src) (name dst)
                               (remove_entry (name dst) es)) in
              match lookup_entry (name dst) es, n with
              | None, _ => inr move
              | Some (Dir _ []), Dir _ _ => inr replace
              | Some (Dir _ _), Dir _ _ => inl (OSError src)
              | Some (Dir _ _), _ => inl (IsADirectoryError src)
              | Some _, Dir _ _ => inl (NotADirectoryError src)
              | Some _, _ => inr replace
              end
        end
  | _ =>
      inl (if not_a_directory [] root src then NotADirectoryError src
           else FileNotFoundError src)
  end.

(** ** Sorting

    [list.sort(key=..., reverse=True)]: a stable sort by decreasing key;
    elements of equal key keep the order they had. *)
Section Sort.

Context {A : Type}.
Variable key : A -> nat.

Fixpoint insert_desc (x : A) (l : list A) : list A :=
  match l with
  | [] => [x]
  | y :: t => if (key x <? key y)%nat then y :: insert_desc x t else x :: l
  end.

Definition sort_desc (l : list A) : list A := fold_right insert_desc [] l.

End Sort.

(** ** The world: tree, log sink, trace of filesystem calls *)

Inductive fs_call : Type :=
| CallStat (p : path)
| CallExists (p : path)
| CallIsDir (p : path)
| CallRglob (p : path)
| CallRename (src dst : path).

Inductive level : Type := INFO | ERROR.

(** What reaches the user: the records of the two loggers and the lines
    of [typer.secho]. *)
Inductive record : Type :=
| PathDoesNotExist (target : path)
| FoundItems (n : nat)
| NamingCollision (new_path : path)
| DryRun (item_type : kind) (old_name new_name : str)
| Success (old_name new_name : str)
| PermissionDenied (item_type : kind) (old_name : str)
| UnexpectedError (e : exn)
| Scanning (p : path)
| EchoDryRunMode
| EchoLiveMode.

Definition record_level (r : record) : level :=
  match r with
  | PathDoesNotExist _ | NamingCollision _ | PermissionDenied _ _
  | UnexpectedError _ => ERROR
  | _ => INFO
  end.

Record world : Type := World {
  fs : node;
  calls : list fs_call;
  sink : list record
}.

(** A computation runs in a world and ends in a value or in a raised
    exception; what it did to the world before raising stays done. *)
Definition M (A : Type) : Type := world -> (exn + A) * world.

Definition ret {A} (a : A) : M A := fun w => (inr a, w).

Definition bind {A B} (m : M A) (k : A -> M B) : M B :=
  fun w =>
    match m w with
    | (inr a, w') => k a w'
    | (inl e, w') => (inl e, w')
    end.

Definition raise {A} (e : exn) : M A := fun w => (inl e, w).

Definition try_except {A} (m : M A) (handler : exn -> M A) : M A :=
  fun w =>
    match m w with
    | (inl e, w') => handler e w'
    | r => r
    end.

Definition lift {A} (r : exn + A) : M A := fun w => (r, w).

Notation "x <- m ;; k" := (bind m (fun x => k))
  (at level 61, m at next level, right associativity).
Notation "m ;;; k" := (bind m (fun _ => k))
  (at level 61, right associativity).

Definition called (c : fs_call) (w : world) : world :=
  World (fs w) (calls w ++ [c]) (sink w).

Definition log (r : record) : M unit :=
  fun w => (inr tt, World (fs w) (calls w) (sink w ++ [r])).

(** [Path.exists], [Path.is_dir] and [os.stat] as they answer when the
    system lets them look: they follow links and take a path that leads
    nowhere for absent.  The errors they pass on (a name too long, a
    directory that may not be searched) are not in the model. *)
Definition path_exists (p : path) : M bool :=
  fun w => (inr (fs_exists (fs w) p), called (CallExists p) w).

Definition path_is_dir (p : path) : M bool :=
  fun w => (inr (fs_is_dir (fs w) p), called (CallIsDir p) w).

Definition path_stat (p : path) : M (option kind) :=
  fun w =>
    (inr match resolve (fs w) p with
         | Some File => Some FILE
         | Some (Dir _ _) => Some FOLDER
         | Some DanglingLink | None => None
         end,
     called (CallStat p) w).

Definition path_rglob (p : path) : M (list path) :=
  fun w => (inr (fs_rglob (fs w) p), called (CallRglob p) w).

Definition path_rename (src dst : path) : M unit :=
  fun w =>
    let w' := called (CallRename src dst) w in
    match os_rename (fs w) src dst with
    | inr root' => (inr tt, World root' (calls w') (sink w'))
    | inl e => (inl e, w')
    end.

Fixpoint for_each {A} (l : list A) (body : A -> M unit) : M unit :=
  match l with
  | [] => ret tt
  | x :: t => body x ;;; for_each t body
  end.

(** ** The tree renamer *)

Section TreeRenamer.

Variable nfkd : str -> str.

Definition rename_item (item_path : path) (item_type : kind)
  (dry_run : bool) : M unit :=
  let old_name := name item_path in
  let new_name := sanitize_name nfkd old_name in
  new_path <- lift (with_name item_path new_name) ;;
  if path_eqb item_path new_path then ret tt
  else
    occupied <- path_exists new_path ;;
    if occupied then log (NamingCollision new_path)
    else if dry_run then log (DryRun item_type old_name new_name)
    else
      try_except
        (path_rename item_path new_path ;;;
         log (Success old_name new_name))
        (fun e =>
           match e with
           | PermissionError _ => log (PermissionDenied item_type old_name)
           | _ => log (UnexpectedError e)
           end).

(** The body of the loop of [rename_files]. *)
Definition process_entry (dry_run : bool) (p : path) : M unit :=
  is_dir <- path_is_dir p ;;
  rename_item p (if is_dir then FOLDER else FILE) dry_run.

Definition rename_files (target_path : path) (dry_run : bool) : M unit :=
  present <- path_exists target_path ;;
  if negb present then log (PathDoesNotExist target_path)
  else
    (* Gather everything *)
    paths <- path_rglob target_path ;;
    (* Sort by depth (deepest first) *)
    let paths := sort_desc parts_len paths in
    log (FoundItems (List.length paths)) ;;;
    for_each paths (process_entry dry_run).

(** The command: [typer] checks the argument ([exists=True],
    [file_okay=False]) before the body runs, and refuses it with a
    [BadParameter] error. *)
Definition run_sanitizer (p : path) (apply : bool) : M unit :=
  st <- path_stat p ;;
  match st with
  | None | Some FILE => raise (BadParameter p)
  | Some FOLDER =>
      let dry_run := negb apply in
      log (Scanning p) ;;;
      log (if dry_run then EchoDryRunMode else EchoLiveMode) ;;;
      rename_files p dry_run
  end.

End TreeRenamer.

(** The sequence in which [rename_files] processes the entries below
    [target_path]. *)
Definition processing_order (root : node) (target_path : path) : list path :=
  sort_desc parts_len (fs_rglob root target_path).

Definition start (root : node) : world := World root [] [].

(** [a] is a proper ancestor of [d]: the path of [d] goes through [a]
    and on. *)
Definition is_ancestor (a d : path) : Prop :=
  exists rest, rest <> [] /\ d = a ++ rest.

Definition is_rename (c : fs_call) : bool :=
  match c with
  | CallRename _ _ => true
  | _ => false
  end.

(** What a dry run may report: the bookkeeping of [rename_files],
    collisions, and for a rename it would do the old name with its
    sanitized form. *)
Definition dry_record (nfkd : str -> str) (r : record) : Prop :=
  match r with
  | PathDoesNotExist _ | FoundItems _ | NamingCollision _ => True
  | DryRun _ old_name new_name => new_name = sanitize_name nfkd old_name
  | _ => False
  end.

(** A step that leaves the tree alone, asks for no rename and reports
    only what a dry run may report. *)
Definition dry_step (nfkd : str -> str) (w w' : world) : Prop :=
  fs w' = fs w
  /\ (exists cs, calls w' = calls w ++ cs
                 /\ Forall (fun c => is_rename c = false) cs)
  /\ (exists rs, sink w' = sink w ++ rs /\ Forall (dry_record nfkd) rs).

(** A computation all of whose runs are dry steps. *)
Definition dry (nfkd : str -> str) {A} (m : M A) : Prop :=
  forall w, dry_step nfkd w (snd (m w)).

(** ** Trees to run on *)

Definition file (n : string) : str * node := (str_of n, File).

Definition folder (n : string) (es : list (str * node)) : str * node :=
  (str_of n, Dir true es).

Definition vault : path := [str_of "vault"].

Definition in_vault (n : string) : path := [str_of "vault"; str_of n].

(** [vault/___] sanitizes to the empty name. *)
Definition tree_underscores : node :=
  Dir true [folder "vault" [file "___"; file "My File.txt"]].

(** [vault/A/b.TXT] below [vault/A]. *)
Definition tree_nested : node :=
  Dir true [folder "vault" [folder "A" [file "b.TXT"]; file "notes.txt"]].

(** [vault/File.txt] next to [vault/file.txt]. *)
Definition tree_collision : node :=
  Dir true [folder "vault" [file "File.txt"; file "file.txt"]].

(** One entry, already sanitized. *)
Definition tree_clean : node :=
  Dir true [folder "vault" [file "notes.txt"]].

(** [vault/File.txt] next to a dangling link [vault/file.txt]. *)
Definition tree_dangling : node :=
  Dir true [folder "vault" [file "File.txt"; (str_of "file.txt", DanglingLink)]].

(** ** Reading the trace and the tree *)

(** The entries the loop of [rename_files] has looked at, in order: its
    [is_dir] probes. *)
Definition probed (cs : list fs_call) : list path :=
  flat_map (fun c => match c with CallIsDir p => [p] | _ => [] end) cs.

(** A segment that is a name, not a step: neither ["."] nor [".."]. *)
Definition plain (seg : str) : Prop :=
  str_eqb seg [dot] = false /\ str_eqb seg [dot; dot] = false.

(** Resolution of a path whose segments are all names: plain descent. *)
Fixpoint walk (cur : node) (p : path) : option node :=
  match p with
  | [] =>
      match cur with
      | DanglingLink => None
      | _ => Some cur
      end
  | seg :: rest =>
      match cur with
      | File | DanglingLink => None
      | Dir _ es =>
          match lookup_entry seg es with
          | Some n => walk n rest
          | None => None
          end
      end
  end.

(** A path all of whose segments are names a directory entry can
    have. *)
Definition valid_path (p : path) : Prop :=
  Forall (fun seg => valid_name seg = true) p.

Definition is_success (r : record) : bool :=
  match r with
  | Success _ _ => true
  | _ => false
  end.



(** Induction on trees, with the hypothesis for every entry of a
    directory. *)
Fixpoint node_induction (P : node -> Prop) (HF : P File)
  (HD : forall w es, Forall (fun e => P (snd e)) es -> P (Dir w es))
  (HL : P DanglingLink) (n : node) : P n :=
  match n with
  | File => HF
  | DanglingLink => HL
  | Dir w es =>
      HD w es
        ((fix go (es : list (str * node)) : Forall (fun e => P (snd e)) es :=
            match es with
            | [] => Forall_nil _
            | e :: t =>
                Forall_cons e (node_induction P HF HD HL (snd e)) (go t)
            end) es)
  end.

(** A rename call as [rename_files] may issue it over the entries [l]:
    the source is one of them, the target is the source with its name
    sanitized, and differs from it. *)
Definition rename_in_place (nfkd : str -> str) (l : list path)
  (c : fs_call) : Prop :=
  match c with
  | CallRename src dst =>
      In src l
      /\ dst = removelast src ++ [sanitize_name nfkd (name src)]
      /\ dst <> src
  | _ => True
  end.


(** * Properties *)

(** ** Characters *)

Lemma is_hyphen_true (c : codepoint) : is_hyphen c = true <-> c = hyphen.
Proof. unfold is_hyphen. apply N.eqb_eq. Qed.

Lemma keep_not_hyphen (c : codepoint) : keep c = true -> is_hyphen c = false.
Proof.
  unfold keep, is_lower, is_digit, is_dot, is_hyphen, hyphen, dot.
  intros H. apply N.eqb_neq. intros ->. discriminate H.
Qed.

Lemma allowed_not_keep (c : codepoint) :
  allowed c = true -> not_keep c = true -> c = hyphen.
Proof.
  unfold allowed, not_keep. intros Ha Hk.
  apply negb_true_iff in Hk. rewrite Hk in Ha. now apply is_hyphen_true.
Qed.

Lemma allowed_ascii (c : codepoint) : allowed c = true -> is_ascii c = true.
Proof.
  unfold allowed, keep, is_lower, is_digit, is_dot, is_hyphen, is_ascii, dot, hyphen.
  intros H. apply N.ltb_lt.
  repeat (apply orb_true_iff in H; destruct H as [H | H]);
    try (apply andb_true_iff in H; destruct H as [_ H]; apply N.leb_le in H; lia);
    apply N.eqb_eq in H; lia.
Qed.

Lemma allowed_lower (c : codepoint) : allowed c = true -> lower_cp c = c.
Proof.
  unfold lower_cp. intros H. destruct (is_upper c) eqn:Hu; [exfalso | reflexivity].
  unfold is_upper in Hu. apply andb_true_iff in Hu. destruct Hu as [H1 H2].
  apply N.leb_le in H1, H2.
  unfold allowed, keep, is_lower, is_digit, is_dot, is_hyphen, dot, hyphen in H.
  repeat (apply orb_true_iff in H; destruct H as [H | H]);
    try (apply andb_true_iff in H; destruct H as [H3 H4]; apply N.leb_le in H3, H4; lia);
    apply N.eqb_eq in H; lia.
Qed.

(** ** The shape of what each pass returns *)

Lemma sub_not_keep_allowed (s : str) (b : bool) :
  Forall (fun c => allowed c = true) (sub_runs not_keep [hyphen] b s).
Proof.
  revert b. induction s as [| c t IH]; intros b; simpl; [constructor |].
  destruct (not_keep c) eqn:Hc.
  - destruct b; simpl; [apply IH | constructor; [reflexivity | apply IH]].
  - constructor; [| apply IH].
    unfold not_keep in Hc. apply negb_false_iff in Hc.
    unfold allowed. now rewrite Hc.
Qed.

Lemma sub_hyphen_allowed (s : str) (b : bool) :
  Forall (fun c => allowed c = true) s ->
  Forall (fun c => allowed c = true) (sub_runs is_hyphen [hyphen] b s).
Proof.
  intros H. revert b. induction H as [| c t Hc Ht IH]; intros b; simpl;
    [constructor |].
  destruct (is_hyphen c).
  - destruct b; simpl; [apply IH | constructor; [reflexivity | apply IH]].
  - constructor; [exact Hc | apply IH].
Qed.

Lemma sub_hyphen_no_double (s : str) (b : bool) :
  double_hyphen (sub_runs is_hyphen [hyphen] b s) = false
  /\ (b = true -> head_hyphen (sub_runs is_hyphen [hyphen] b s) = false).
Proof.
  revert b. induction s as [| c t IH]; intros b; simpl; [now split |].
  destruct (is_hyphen c) eqn:Hc.
  - destruct (IH true) as [Hd Hh]. specialize (Hh eq_refl).
    destruct b; simpl.
    + now split.
    + rewrite Hh, Hd. split; [reflexivity | discriminate].
  - destruct (IH false) as [Hd _]. simpl. rewrite Hc, Hd. now split.
Qed.

Lemma lstrip_allowed (P : codepoint -> Prop) (chars : codepoint -> bool) (s : str) :
  Forall P s -> Forall P (lstrip chars s).
Proof.
  induction 1 as [| c t Hc Ht IH]; simpl; [constructor |].
  destruct (chars c); [exact IH | now constructor].
Qed.

Lemma lstrip_no_double (chars : codepoint -> bool) (s : str) :
  double_hyphen s = false -> double_hyphen (lstrip chars s) = false.
Proof.
  induction s as [| c t IH]; simpl; [easy |].
  intros H. apply orb_false_iff in H. destruct H as [H1 H2].
  destruct (chars c); [now apply IH | simpl; now rewrite H1, H2].
Qed.

Lemma lstrip_head (s : str) : head_hyphen (lstrip is_hyphen s) = false.
Proof.
  induction s as [| c t IH]; simpl; [reflexivity |].
  destruct (is_hyphen c) eqn:Hc; [exact IH | exact Hc].
Qed.

Lemma rstrip_allowed (P : codepoint -> Prop) (chars : codepoint -> bool) (s : str) :
  Forall P s -> Forall P (rstrip chars s).
Proof.
  induction 1 as [| c t Hc Ht IH]; simpl; [constructor |].
  destruct (rstrip chars t) as [| d r].
  - destruct (chars c); repeat constructor; assumption.
  - now constructor.
Qed.

Lemma rstrip_head (chars : codepoint -> bool) (s : str) :
  head_hyphen s = false -> head_hyphen (rstrip chars s) = false.
Proof.
  destruct s as [| c t]; simpl; [easy |]. intros H.
  destruct (rstrip chars t); [destruct (chars c) |]; simpl; auto.
Qed.

Lemma rstrip_head_of (chars : codepoint -> bool) (s : str) :
  head_hyphen (rstrip chars s) = true -> head_hyphen s = true.
Proof.
  destruct s as [| c t]; simpl; [easy |].
  destruct (rstrip chars t); [destruct (chars c) |]; simpl; auto.
  discriminate.
Qed.

Lemma rstrip_no_double (chars : codepoint -> bool) (s : str) :
  double_hyphen s = false -> double_hyphen (rstrip chars s) = false.
Proof.
  induction s as [| c t IH]; simpl; [easy |].
  intros H. apply orb_false_iff in H. destruct H as [H1 H2].
  specialize (IH H2).
  destruct (rstrip chars t) as [| d r] eqn:Hr.
  - destruct (chars c); simpl; [reflexivity |].
    now rewrite andb_false_r.
  - change (double_hyphen (c :: d :: r))
      with ((is_hyphen c && head_hyphen (d :: r)) || double_hyphen (d :: r)).
    rewrite IH, orb_false_r.
    destruct (is_hyphen c) eqn:Hc; [simpl | reflexivity].
    simpl in H1.
    destruct (is_hyphen d) eqn:Hd; [| reflexivity].
    assert (head_hyphen t = true) as Ht.
    { apply (rstrip_head_of chars). rewrite Hr. exact Hd. }
    now rewrite Ht in H1.
Qed.

Lemma rstrip_last (s : str) : last_hyphen (rstrip is_hyphen s) = false.
Proof.
  induction s as [| c t IH]; simpl; [reflexivity |].
  destruct (rstrip is_hyphen t) as [| d r].
  - destruct (is_hyphen c) eqn:Hc; simpl; [reflexivity | exact Hc].
  - exact IH.
Qed.

(** ** The passes, told another way *)

(** Inside a run, the rest of the run is skipped: a maximal run gives
    one replacement. *)
Lemma sub_runs_in_run (cls : codepoint -> bool) (repl t : str) :
  sub_runs cls repl true t = sub_runs cls repl false (lstrip cls t).
Proof.
  induction t as [| d u IH]; simpl; [reflexivity |].
  destruct (cls d) eqn:Hd; simpl; [exact IH | now rewrite Hd].
Qed.

Lemma re_sub_plus_cons (cls : codepoint -> bool) (repl : str)
  (c : codepoint) (t : str) :
  re_sub_plus cls repl (c :: t)
  = if cls c then repl ++ re_sub_plus cls repl (lstrip cls t)
    else c :: re_sub_plus cls repl t.
Proof.
  unfold re_sub_plus. simpl. now rewrite sub_runs_in_run.
Qed.

Lemma lstrip_app (chars : codepoint -> bool) (a b : str) :
  lstrip chars (a ++ b)
  = match lstrip chars a with
    | [] => lstrip chars b
    | r => r ++ b
    end.
Proof.
  induction a as [| c a IH]; simpl; [reflexivity |].
  destruct (chars c); [exact IH | reflexivity].
Qed.

(** Stripping on the right is stripping the reversed string on the
    left. *)
Lemma rstrip_rev (chars : codepoint -> bool) (s : str) :
  rstrip chars s = rev (lstrip chars (rev s)).
Proof.
  induction s as [| c t IH]; simpl; [reflexivity |].
  rewrite lstrip_app, IH.
  destruct (lstrip chars (rev t)) as [| d r]; simpl.
  - now destruct (chars c).
  - rewrite rev_app_distr. simpl.
    destruct (rev r ++ [d]) eqn:E; [now destruct (rev r) | reflexivity].
Qed.

(** ** The boolean test decides well-formedness *)

Lemma head_hyphen_false_iff (s : str) :
  head_hyphen s = false <-> forall t, s <> hyphen :: t.
Proof.
  destruct s as [| c t]; simpl.
  - split; [discriminate | reflexivity].
  - split.
    + intros H u E. injection E as -> _. discriminate H.
    + intros H. destruct (is_hyphen c) eqn:Hc; [| reflexivity].
      apply is_hyphen_true in Hc. subst c. now destruct (H t).
Qed.

Lemma last_hyphen_app (t : str) : last_hyphen (t ++ [hyphen]) = true.
Proof.
  induction t as [| c t IH]; [reflexivity |].
  simpl. destruct (t ++ [hyphen]) eqn:E; [now destruct t | exact IH].
Qed.

Lemma last_hyphen_true (s : str) :
  last_hyphen s = true -> exists t, s = t ++ [hyphen].
Proof.
  induction s as [| c t IH]; simpl; [discriminate |].
  destruct t as [| d r].
  - intros H. apply is_hyphen_true in H. subst c. now exists [].
  - intros H. destruct (IH H) as [u Hu]. exists (c :: u). simpl. now rewrite Hu.
Qed.

Lemma last_hyphen_false_iff (s : str) :
  last_hyphen s = false <-> forall t, s <> t ++ [hyphen].
Proof.
  split.
  - intros H t ->. now rewrite last_hyphen_app in H.
  - intros H. destruct (last_hyphen s) eqn:E; [| reflexivity].
    destruct (last_hyphen_true s E) as [t Ht]. now destruct (H t).
Qed.

Lemma double_hyphen_app (a b : str) :
  double_hyphen (a ++ hyphen :: hyphen :: b) = true.
Proof.
  induction a as [| c a IH]; [reflexivity |].
  simpl. rewrite IH. apply orb_true_r.
Qed.

Lemma double_hyphen_true (s : str) :
  double_hyphen s = true -> exists a b, s = a ++ hyphen :: hyphen :: b.
Proof.
  induction s as [| c t IH]; simpl; [discriminate |].
  intros H. apply orb_true_iff in H. destruct H as [H | H].
  - apply andb_true_iff in H. destruct H as [Hc Ht].
    destruct t as [| d r]; [discriminate |]. simpl in Ht.
    apply is_hyphen_true in Hc, Ht. subst. now exists [], r.
  - destruct (IH H) as (a & b & ->). now exists (c :: a), b.
Qed.

Lemma double_hyphen_false_iff (s : str) :
  double_hyphen s = false <-> forall a b, s <> a ++ hyphen :: hyphen :: b.
Proof.
  split.
  - intros H a b ->. now rewrite double_hyphen_app in H.
  - intros H. destruct (double_hyphen s) eqn:E; [| reflexivity].
    destruct (double_hyphen_true s E) as (a & b & Hs). now destruct (H a b).
Qed.

Lemma well_formedb_iff (s : str) : well_formedb s = true <-> well_formed s.
Proof.
  unfold well_formedb. split.
  - intros H.
    apply andb_true_iff in H. destruct H as [H H4].
    apply andb_true_iff in H. destruct H as [H H3].
    apply andb_true_iff in H. destruct H as [H1 H2].
    apply negb_true_iff in H2, H3, H4.
    constructor.
    + apply Forall_forall. now apply forallb_forall.
    + now apply head_hyphen_false_iff.
    + now apply last_hyphen_false_iff.
    + now apply double_hyphen_false_iff.
  - intros [H1 H2 H3 H4].
    apply head_hyphen_false_iff in H2. apply last_hyphen_false_iff in H3.
    apply double_hyphen_false_iff in H4.
    rewrite H2, H3, H4.
    assert (forallb allowed s = true) as ->; [| reflexivity].
    apply forallb_forall. now apply Forall_forall.
Qed.

(** ** The transform lands in the well-formed names *)

Lemma sanitize_name_well_formedb (nfkd : str -> str) (s : str) :
  well_formedb (sanitize_name nfkd s) = true.
Proof.
  apply well_formedb_iff. unfold sanitize_name, re_sub_plus, strip.
  set (s1 := lower (encode_ascii_ignore (nfkd s))).
  set (s2 := sub_runs not_keep [hyphen] false s1).
  set (s3 := sub_runs is_hyphen [hyphen] false s2).
  assert (Forall (fun c => allowed c = true) s3) as Ha
    by apply sub_hyphen_allowed, sub_not_keep_allowed.
  assert (double_hyphen s3 = false) as Hd by apply sub_hyphen_no_double.
  constructor.
  - now apply rstrip_allowed, lstrip_allowed.
  - apply head_hyphen_false_iff, rstrip_head, lstrip_head.
  - apply last_hyphen_false_iff, rstrip_last.
  - now apply double_hyphen_false_iff, rstrip_no_double, lstrip_no_double.
Qed.

(** ** Well-formed names are left as they are *)

Lemma sub_runs_fixed (cls : codepoint -> bool) (s : str) (b : bool) :
  Forall (fun c => cls c = true -> c = hyphen) s ->
  double_hyphen s = false ->
  (b = true -> head_hyphen s = false) ->
  sub_runs cls [hyphen] b s = s.
Proof.
  intros H. revert b. induction H as [| c t Hc Ht IH]; intros b Hd Hb;
    [reflexivity |].
  simpl in *. apply orb_false_iff in Hd. destruct Hd as [Hd1 Hd2].
  destruct (cls c) eqn:Ec.
  - rewrite (Hc eq_refl) in *. change (is_hyphen hyphen) with true in *.
    destruct b; [now specialize (Hb eq_refl) |].
    simpl. f_equal. apply IH; [exact Hd2 | intros _; exact Hd1].
  - f_equal. apply IH; [exact Hd2 | discriminate].
Qed.

Lemma lstrip_fixed (s : str) :
  head_hyphen s = false -> lstrip is_hyphen s = s.
Proof. destruct s as [| c t]; simpl; [easy |]. now intros ->. Qed.

Lemma rstrip_fixed (s : str) :
  last_hyphen s = false -> rstrip is_hyphen s = s.
Proof.
  induction s as [| c t IH]; [reflexivity |].
  destruct t as [| d r].
  - simpl. now intros ->.
  - intros H. change (last_hyphen (c :: d :: r)) with (last_hyphen (d :: r)) in H.
    change (rstrip is_hyphen (c :: d :: r))
      with (match rstrip is_hyphen (d :: r) with
            | [] => if is_hyphen c then [] else [c]
            | x :: r' => c :: x :: r'
            end).
    now rewrite (IH H).
Qed.

Lemma filter_fixed {A} (f : A -> bool) (l : list A) :
  Forall (fun x => f x = true) l -> filter f l = l.
Proof. induction 1 as [| x l Hx _ IH]; simpl; [| rewrite Hx, IH]; reflexivity. Qed.

Lemma lower_fixed (s : str) :
  Forall (fun c => allowed c = true) s -> lower s = s.
Proof.
  induction 1 as [| c t Hc _ IH]; simpl; [reflexivity |].
  now rewrite (allowed_lower c Hc), IH.
Qed.

Section FixedPoints.

Variable nfkd : str -> str.
Hypothesis nfkd_ascii :
  forall s, Forall (fun c => is_ascii c = true) s -> nfkd s = s.

Lemma sanitize_name_fixed (s : str) :
  well_formed s -> sanitize_name nfkd s = s.
Proof.
  intros [Ha Hh Hl Hd].
  apply head_hyphen_false_iff in Hh. apply last_hyphen_false_iff in Hl.
  apply double_hyphen_false_iff in Hd.
  unfold sanitize_name, re_sub_plus, strip, encode_ascii_ignore.
  assert (Forall (fun c => is_ascii c = true) s) as Hascii
    by (eapply Forall_impl; [apply allowed_ascii | exact Ha]).
  rewrite (nfkd_ascii s Hascii), (filter_fixed _ _ Hascii), (lower_fixed s Ha).
  rewrite (sub_runs_fixed not_keep s false); [| | exact Hd | discriminate].
  - rewrite (sub_runs_fixed is_hyphen s false); [| | exact Hd | discriminate].
    + now rewrite (lstrip_fixed s Hh), (rstrip_fixed s Hl).
    + apply Forall_forall. intros c _. apply is_hyphen_true.
  - eapply Forall_impl; [| exact Ha]. apply allowed_not_keep.
Qed.

End FixedPoints.

(** ** The Latin-1 table is a normalisation on ASCII *)

Lemma decompose_in_miss (table : list (codepoint * str)) (c : codepoint) :
  Forall (fun kd => c < fst kd) table -> decompose_in table c = [c].
Proof.
  induction 1 as [| [k d] t Hk _ IH]; simpl; [reflexivity |].
  simpl in Hk. destruct (N.eqb_spec c k); [lia | exact IH].
Qed.

Lemma latin1_keys_above_ascii :
  Forall (fun kd : codepoint * str => 128 <= fst kd) latin1_decomposition.
Proof. unfold latin1_decomposition. repeat constructor; simpl; lia. Qed.

Lemma nfkd_latin1_ascii (s : str) :
  Forall (fun c => is_ascii c = true) s -> nfkd_latin1 s = s.
Proof.
  unfold nfkd_latin1. induction 1 as [| c t Hc _ IH]; [reflexivity |].
  cbn [flat_map]. rewrite IH, decompose_in_miss; [reflexivity |].
  apply N.ltb_lt in Hc.
  eapply Forall_impl; [| exact latin1_keys_above_ascii].
  intros kd Hk. simpl in Hk. now apply N.lt_le_trans with 128.
Qed.

(** ** Dots pass through every step *)

Lemma lower_cp_dot (c : codepoint) : is_dot (lower_cp c) = is_dot c.
Proof.
  unfold lower_cp, is_upper, is_dot, dot.
  destruct (65 <=? c) eqn:H1; simpl; [| reflexivity].
  destruct (c <=? 90) eqn:H2; [| reflexivity].
  apply N.leb_le in H1, H2.
  destruct (N.eqb_spec (c + 32) 46), (N.eqb_spec c 46); try reflexivity; lia.
Qed.

Lemma lower_dots (s : str) : filter is_dot (lower s) = filter is_dot s.
Proof.
  unfold lower. induction s as [| c t IH]; [reflexivity |].
  cbn [map filter]. rewrite lower_cp_dot, IH.
  destruct (is_dot c) eqn:Hc; [| reflexivity].
  apply N.eqb_eq in Hc. now subst c.
Qed.

Lemma sub_runs_dots (cls : codepoint -> bool) (b : bool) (s : str) :
  (forall c, cls c = true -> is_dot c = false) ->
  filter is_dot (sub_runs cls [hyphen] b s) = filter is_dot s.
Proof.
  intros Hcls. revert b. induction s as [| c t IH]; intros b; simpl;
    [reflexivity |].
  destruct (cls c) eqn:Hc.
  - rewrite (Hcls c Hc). destruct b; simpl; apply IH.
  - simpl. now rewrite IH.
Qed.

Lemma lstrip_dots (s : str) :
  filter is_dot (lstrip is_hyphen s) = filter is_dot s.
Proof.
  induction s as [| c t IH]; simpl; [reflexivity |].
  destruct (is_hyphen c) eqn:Hc; [| reflexivity].
  apply is_hyphen_true in Hc. now subst c.
Qed.

Lemma rstrip_dots (s : str) :
  filter is_dot (rstrip is_hyphen s) = filter is_dot s.
Proof.
  induction s as [| c t IH]; simpl; [reflexivity |].
  destruct (rstrip is_hyphen t) as [| d r].
  - rewrite <- IH. destruct (is_hyphen c) eqn:Hc; [| reflexivity].
    apply is_hyphen_true in Hc. now subst c.
  - rewrite <- IH. reflexivity.
Qed.

Lemma sanitize_name_dots (nfkd : str -> str) (s : str) :
  filter is_dot (sanitize_name nfkd s)
  = filter is_dot (encode_ascii_ignore (nfkd s)).
Proof.
  unfold sanitize_name, re_sub_plus, strip.
  assert (forall c, is_hyphen c = true -> is_dot c = false) as Hh
    by (intros c Hc; apply is_hyphen_true in Hc; now subst c).
  assert (forall c, not_keep c = true -> is_dot c = false) as Hk.
  { intros c Hc. unfold not_keep, keep in Hc. apply negb_true_iff in Hc.
    now destruct (is_dot c); [rewrite orb_true_r in Hc |]. }
  rewrite rstrip_dots, lstrip_dots.
  rewrite (sub_runs_dots is_hyphen false _ Hh).
  rewrite (sub_runs_dots not_keep false _ Hk).
  apply lower_dots.
Qed.

Lemma dots_well_formed (n : nat) : well_formed (repeat dot n).
Proof.
  assert (forall c, In c (repeat dot n) -> c = dot) as Hd
    by (intros c Hc; now apply repeat_spec in Hc).
  constructor.
  - apply Forall_forall. intros c Hc. now rewrite (Hd c Hc).
  - intros t E. assert (hyphen = dot) by (apply Hd; rewrite E; now left).
    discriminate.
  - intros t E. assert (hyphen = dot); [| discriminate].
    apply Hd. rewrite E. apply in_or_app. right. now left.
  - intros a b E. assert (hyphen = dot); [| discriminate].
    apply Hd. rewrite E. apply in_or_app. right. now left.
Qed.

(** * The name transform: the claims *)

(** C4. For every string, the sanitized name is well formed: all its
    characters are among a-z, 0-9, dot and hyphen, it neither starts nor
    ends with a hyphen, and no two hyphens follow each other. *)
Theorem sanitize_name_well_formed (nfkd : str -> str) (s : str) :
  well_formed (sanitize_name nfkd s).
Proof. apply well_formedb_iff, sanitize_name_well_formedb. Qed.

(** C3. The transform is idempotent: sanitizing a sanitized name gives
    the same name again, for any normalisation that leaves ASCII strings
    alone. *)
Theorem sanitize_name_idempotent (nfkd : str -> str)
  (nfkd_ascii : forall s, Forall (fun c => is_ascii c = true) s -> nfkd s = s)
  (s : str) :
  sanitize_name nfkd (sanitize_name nfkd s) = sanitize_name nfkd s.
Proof.
  apply sanitize_name_fixed; [exact nfkd_ascii |].
  apply well_formedb_iff, sanitize_name_well_formedb.
Qed.

Lemma sanitize_name_idempotent_witness :
  sanitize_name nfkd_latin1
    (sanitize_name nfkd_latin1 [82; 233; 115; 117; 109; 233; 32; 46; 109; 100])
  = str_of "resume-.md".
Proof.
  rewrite (sanitize_name_idempotent nfkd_latin1 nfkd_latin1_ascii).
  reflexivity.
Defined.

(** C10. A well-formed name is a fixed point of the transform, and the
    well-formed names are exactly the names the transform returns. *)
Theorem well_formed_fixed_and_image (nfkd : str -> str)
  (nfkd_ascii : forall s, Forall (fun c => is_ascii c = true) s -> nfkd s = s) :
  (forall s, well_formed s -> sanitize_name nfkd s = s)
  /\ (forall s, well_formed s <-> exists t, sanitize_name nfkd t = s).
Proof.
  split; [now apply sanitize_name_fixed |].
  intros s. split.
  - intros H. exists s. now apply sanitize_name_fixed.
  - intros [t <-]. apply well_formedb_iff, sanitize_name_well_formedb.
Qed.

Lemma well_formed_fixed_and_image_witness :
  sanitize_name nfkd_latin1 (str_of "my-file.v2.txt") = str_of "my-file.v2.txt"
  /\ well_formed (str_of "resume.md").
Proof.
  destruct (well_formed_fixed_and_image nfkd_latin1 nfkd_latin1_ascii)
    as [Hfix Himg].
  split.
  - apply Hfix. apply well_formedb_iff. reflexivity.
  - apply Himg. exists [82; 233; 115; 117; 109; 233; 46; 109; 100]. reflexivity.
Defined.

(** C9. Dots survive the transform untouched: the dots of the result are
    the dots of the ASCII-folded input, none replaced, merged or stripped.
    A name made of dots only is returned as it is (["."] and [".."] among
    them), and a result can start with a dot, end with one and hold
    several in a row; ["."] and [".."] are not names an entry can have. *)
Theorem sanitize_name_keeps_dots (nfkd : str -> str)
  (nfkd_ascii : forall s, Forall (fun c => is_ascii c = true) s -> nfkd s = s) :
  (forall s, filter is_dot (sanitize_name nfkd s)
             = filter is_dot (encode_ascii_ignore (nfkd s)))
  /\ (forall n, sanitize_name nfkd (repeat dot n) = repeat dot n)
  /\ sanitize_name nfkd (str_of ".") = str_of "."
  /\ sanitize_name nfkd (str_of "..") = str_of ".."
  /\ sanitize_name nfkd (str_of ".a..b.") = str_of ".a..b."
  /\ valid_name (sanitize_name nfkd (str_of ".")) = false
  /\ valid_name (sanitize_name nfkd (str_of "..")) = false.
Proof.
  assert (forall n, sanitize_name nfkd (repeat dot n) = repeat dot n) as Hrep
    by (intros n; apply sanitize_name_fixed; [exact nfkd_ascii | apply dots_well_formed]).
  assert (sanitize_name nfkd (str_of ".a..b.") = str_of ".a..b.") as Hmix.
  { apply sanitize_name_fixed; [exact nfkd_ascii |].
    apply well_formedb_iff. reflexivity. }
  repeat split.
  - apply sanitize_name_dots.
  - exact Hrep.
  - exact (Hrep 1%nat).
  - exact (Hrep 2%nat).
  - exact Hmix.
  - change (str_of ".") with (repeat dot 1). now rewrite Hrep.
  - change (str_of "..") with (repeat dot 2). now rewrite Hrep.
Qed.

Lemma sanitize_name_keeps_dots_witness :
  sanitize_name nfkd_latin1 (str_of "...") = str_of "..."
  /\ filter is_dot (sanitize_name nfkd_latin1 (str_of "A..B_.c"))
     = str_of "...".
Proof.
  destruct (sanitize_name_keeps_dots nfkd_latin1 nfkd_latin1_ascii)
    as (Hdots & Hrep & _).
  split.
  - exact (Hrep 3%nat).
  - rewrite Hdots. reflexivity.
Defined.

Example sanitize_test_basic :
  sanitize_name nfkd_latin1 (str_of "My File.txt") = str_of "my-file.txt".
Proof. reflexivity. Qed.

Example sanitize_test_accents :
  sanitize_name nfkd_latin1 [82; 233; 115; 117; 109; 233; 46; 109; 100]
  = str_of "resume.md".
Proof. reflexivity. Qed.

Example sanitize_test_leading :
  sanitize_name nfkd_latin1 (str_of "  Leading  ") = str_of "leading".
Proof. reflexivity. Qed.

Example sanitize_test_empty : sanitize_name nfkd_latin1 [] = [].
Proof. reflexivity. Qed.

(** * The tree renamer *)

(** ** Paths *)

Lemma str_eqb_eq (a b : str) : str_eqb a b = true <-> a = b.
Proof.
  revert b. induction a as [| x a IH]; intros [| y b]; simpl;
    try (split; [discriminate | discriminate]); [now split |].
  rewrite andb_true_iff, N.eqb_eq, IH. split.
  - now intros [-> ->].
  - intros E. injection E as -> ->. now split.
Qed.

Lemma path_eqb_eq (p q : path) : path_eqb p q = true <-> p = q.
Proof.
  revert q. induction p as [| a p IH]; intros [| b q]; simpl;
    try (split; [discriminate | discriminate]); [now split |].
  rewrite andb_true_iff, str_eqb_eq, IH. split.
  - now intros [-> ->].
  - intros E. injection E as -> ->. now split.
Qed.

Lemma path_eqb_neq (p q : path) : q <> p -> path_eqb p q = false.
Proof.
  intros H. destruct (path_eqb p q) eqn:E; [| reflexivity].
  apply path_eqb_eq in E. now destruct H.
Qed.

Lemma valid_name_not_invalid (n : str) :
  valid_name n = true -> invalid_name n = false.
Proof.
  unfold valid_name, invalid_name. destruct n as [| c t]; [discriminate |].
  intros H.
  apply andb_true_iff in H. destruct H as [H _].
  apply andb_true_iff in H. destruct H as [H H3].
  apply andb_true_iff in H. destruct H as [H1 _].
  apply negb_true_iff in H1, H3. now rewrite H1, H3.
Qed.

Lemma with_name_same (p : path) :
  valid_name (name p) = true -> with_name p (name p) = inr p.
Proof.
  intros H. unfold with_name. rewrite (valid_name_not_invalid _ H).
  destruct (name p) eqn:E; [discriminate |]. rewrite <- E.
  unfold name. rewrite <- app_removelast_last; [reflexivity |].
  intros ->. discriminate E.
Qed.

(** ** The sort *)

Section SortFacts.

Context {A : Type}.
Variable key : A -> nat.

Let ge_key (a b : A) : Prop := (key b <= key a)%nat.

Lemma insert_desc_perm (x : A) (l : list A) :
  Permutation (insert_desc key x l) (x :: l).
Proof.
  induction l as [| y t IH]; simpl; [reflexivity |].
  destruct (key x <? key y)%nat; [| reflexivity].
  rewrite IH. apply perm_swap.
Qed.

Lemma sort_desc_perm (l : list A) : Permutation (sort_desc key l) l.
Proof.
  induction l as [| x t IH]; simpl; [reflexivity |].
  rewrite insert_desc_perm. now constructor.
Qed.

Lemma insert_desc_sorted (x : A) (l : list A) :
  StronglySorted ge_key l -> StronglySorted ge_key (insert_desc key x l).
Proof.
  induction 1 as [| y t Ht IH Hy]; simpl; [repeat constructor |].
  destruct (Nat.ltb_spec (key x) (key y)).
  - constructor; [exact IH |].
    apply Forall_forall. intros z Hz.
    apply (Permutation_in _ (insert_desc_perm x t)) in Hz.
    destruct Hz as [<- | Hz]; [unfold ge_key; lia |].
    now apply (proj1 (Forall_forall _ _) Hy).
  - constructor; [now constructor |].
    constructor; [exact H |].
    eapply Forall_impl; [| exact Hy]. unfold ge_key. intros z Hz. lia.
Qed.

Lemma sort_desc_sorted (l : list A) : StronglySorted ge_key (sort_desc key l).
Proof.
  induction l as [| x t IH]; simpl; [constructor |].
  now apply insert_desc_sorted.
Qed.

Lemma sorted_nth (l : list A) (i j : nat) (a b : A) :
  StronglySorted ge_key l ->
  nth_error l i = Some a -> nth_error l j = Some b -> (i < j)%nat ->
  (key b <= key a)%nat.
Proof.
  intros H. revert i j. induction H as [| x t Ht IH Hx]; intros i j Hi Hj Hij.
  - now destruct i.
  - destruct j as [| j]; [lia |]. simpl in Hj. destruct i as [| i].
    + simpl in Hi. injection Hi as ->.
      apply nth_error_In in Hj.
      exact (proj1 (Forall_forall _ _) Hx b Hj).
    + simpl in Hi. apply (IH i j); [assumption | assumption | lia].
Qed.

(** Stability: among the entries of one key, the order of the input
    stands. *)
Lemma insert_desc_filter (f : A -> bool) (x : A) (l : list A) :
  (forall y, f y = true -> key y = key x) ->
  filter f (insert_desc key x l) = filter f (x :: l).
Proof.
  intros Hf. induction l as [| y t IH]; [reflexivity |].
  cbn [insert_desc]. destruct (Nat.ltb_spec (key x) (key y)); [| reflexivity].
  cbn [filter] in *. rewrite IH.
  destruct (f y) eqn:Hy; [| reflexivity].
  apply Hf in Hy. lia.
Qed.

Lemma sort_desc_stable (k : nat) (l : list A) :
  filter (fun x => key x =? k)%nat (sort_desc key l)
  = filter (fun x => key x =? k)%nat l.
Proof.
  induction l as [| x t IH]; [reflexivity |].
  cbn [sort_desc fold_right]. fold (sort_desc key t).
  destruct (Nat.eqb_spec (key x) k) as [E | E].
  - rewrite insert_desc_filter.
    + cbn [filter]. now rewrite IH.
    + intros y Hy. apply Nat.eqb_eq in Hy. lia.
  - cbn [filter]. destruct (Nat.eqb_spec (key x) k); [contradiction |].
    rewrite <- IH. clear IH.
    induction (sort_desc key t) as [| y u IHu]; cbn [insert_desc filter].
    + now destruct (Nat.eqb_spec (key x) k).
    + destruct (key x <? key y)%nat; cbn [filter].
      * now rewrite IHu.
      * now destruct (Nat.eqb_spec (key x) k).
Qed.

End SortFacts.

Lemma ancestor_shorter (a d : path) :
  is_ancestor a d -> (parts_len a < parts_len d)%nat.
Proof.
  intros (rest & Hne & ->). unfold parts_len. rewrite length_app.
  destruct rest; [contradiction | simpl; lia].
Qed.

Lemma rename_files_runs_processing_order (nfkd : str -> str) (root : node)
  (target_path : path) (dry_run : bool) :
  fs_exists root target_path = true ->
  rename_files nfkd target_path dry_run (start root)
  = for_each (processing_order root target_path) (process_entry nfkd dry_run)
      (World root [CallExists target_path; CallRglob target_path]
         [FoundItems (List.length (processing_order root target_path))]).
Proof.
  intros H. unfold rename_files, bind, path_exists, path_rglob, log, start.
  simpl. rewrite H. reflexivity.
Qed.

(** C2. [rename_files] runs its loop over the snapshot sorted by
    decreasing depth, and in that sequence an entry comes at a strictly
    smaller index than any of its ancestors: every descendant is processed
    before its parent directory. *)
Theorem descendants_before_ancestors (nfkd : str -> str) (root : node)
  (target_path : path) (dry_run : bool) :
  fs_exists root target_path = true ->
  rename_files nfkd target_path dry_run (start root)
  = for_each (processing_order root target_path) (process_entry nfkd dry_run)
      (World root [CallExists target_path; CallRglob target_path]
         [FoundItems (List.length (processing_order root target_path))])
  /\ Permutation (processing_order root target_path) (fs_rglob root target_path)
  /\ forall (P D : path) (i j : nat),
       nth_error (processing_order root target_path) i = Some P ->
       nth_error (processing_order root target_path) j = Some D ->
       is_ancestor P D ->
       (j < i)%nat.
Proof.
  intros Hex. split; [now apply rename_files_runs_processing_order |].
  split; [apply sort_desc_perm |].
  intros P D i j Hi Hj Hanc. apply ancestor_shorter in Hanc.
  destruct (Nat.lt_trichotomy j i) as [Hlt | [-> | Hgt]]; [exact Hlt | |].
  - rewrite Hi in Hj. injection Hj as ->. lia.
  - pose proof (sorted_nth parts_len _ i j P D
                  (sort_desc_sorted parts_len _) Hi Hj Hgt). lia.
Qed.

Lemma descendants_before_ancestors_witness :
  processing_order tree_nested vault
  = [[str_of "vault"; str_of "A"; str_of "b.TXT"]; in_vault "A";
     in_vault "notes.txt"]
  /\ (0 < 1)%nat.
Proof.
  split; [reflexivity |].
  assert (fs_exists tree_nested vault = true) as Hex by reflexivity.
  destruct (descendants_before_ancestors nfkd_latin1 tree_nested vault true Hex)
    as (_ & _ & Horder).
  apply (Horder (in_vault "A") [str_of "vault"; str_of "A"; str_of "b.TXT"]);
    [reflexivity | reflexivity |].
  exists [str_of "b.TXT"]. split; [discriminate | reflexivity].
Defined.

(** ** Dry steps compose *)

Section DrySteps.

Variable nfkd : str -> str.

Lemma dry_step_refl (w : world) : dry_step nfkd w w.
Proof.
  repeat split; exists []; (split; [now rewrite app_nil_r | constructor]).
Qed.

Lemma dry_step_trans (w1 w2 w3 : world) :
  dry_step nfkd w1 w2 -> dry_step nfkd w2 w3 -> dry_step nfkd w1 w3.
Proof.
  intros (Hf & (cs & Hc & Hcs) & (rs & Hr & Hrs))
         (Hf' & (cs' & Hc' & Hcs') & (rs' & Hr' & Hrs')).
  repeat split.
  - congruence.
  - exists (cs ++ cs'). split; [| now apply Forall_app].
    now rewrite Hc', Hc, app_assoc.
  - exists (rs ++ rs'). split; [| now apply Forall_app].
    now rewrite Hr', Hr, app_assoc.
Qed.

Lemma dry_ret {A} (a : A) : dry nfkd (ret a).
Proof. intros w. apply dry_step_refl. Qed.

Lemma dry_lift {A} (r : exn + A) : dry nfkd (lift r).
Proof. intros w. apply dry_step_refl. Qed.

Lemma dry_bind {A B} (m : M A) (k : A -> M B) :
  dry nfkd m -> (forall a, dry nfkd (k a)) -> dry nfkd (bind m k).
Proof.
  intros Hm Hk w. unfold bind. specialize (Hm w).
  destruct (m w) as [[e | a] w']; simpl in *; [exact Hm |].
  eapply dry_step_trans; [exact Hm | apply Hk].
Qed.

Lemma dry_call {A} (c : fs_call) (f : world -> A) :
  is_rename c = false -> dry nfkd (fun w => (inr (f w), called c w)).
Proof.
  intros Hc w. simpl. repeat split.
  - exists [c]. split; [reflexivity | now repeat constructor].
  - exists []. split; [now rewrite app_nil_r | constructor].
Qed.

Lemma dry_log (r : record) : dry_record nfkd r -> dry nfkd (log r).
Proof.
  intros Hr w. simpl. repeat split.
  - exists []. split; [now rewrite app_nil_r | constructor].
  - exists [r]. split; [reflexivity | now repeat constructor].
Qed.

Lemma dry_for_each {A} (l : list A) (body : A -> M unit) :
  (forall x, dry nfkd (body x)) -> dry nfkd (for_each l body).
Proof.
  intros Hb. induction l as [| x t IH]; simpl.
  - apply dry_ret.
  - apply dry_bind; [apply Hb | intros _; exact IH].
Qed.

Lemma dry_rename_item (p : path) (k : kind) : dry nfkd (rename_item nfkd p k true).
Proof.
  unfold rename_item. apply dry_bind; [apply dry_lift |]. intros q.
  destruct (path_eqb p q); [apply dry_ret |].
  apply dry_bind; [now apply (dry_call (CallExists q)) |].
  intros [|]; now apply dry_log.
Qed.

Lemma dry_process_entry (p : path) : dry nfkd (process_entry nfkd true p).
Proof.
  unfold process_entry.
  apply dry_bind; [now apply (dry_call (CallIsDir p)) |].
  intros d. apply dry_rename_item.
Qed.

Lemma dry_rename_files (target_path : path) :
  dry nfkd (rename_files nfkd target_path true).
Proof.
  unfold rename_files.
  apply dry_bind; [now apply (dry_call (CallExists target_path)) |].
  intros present. destruct present; simpl; [| now apply dry_log].
  apply dry_bind; [now apply (dry_call (CallRglob target_path)) |].
  intros paths. apply dry_bind; [now apply dry_log |].
  intros _. apply dry_for_each, dry_process_entry.
Qed.

End DrySteps.

(** ** One entry *)

Lemma rename_item_collision (nfkd : str -> str) (w : world) (p q : path)
  (k : kind) (dry_run : bool) :
  with_name p (sanitize_name nfkd (name p)) = inr q ->
  q <> p ->
  fs_exists (fs w) q = true ->
  rename_item nfkd p k dry_run w
  = (inr tt,
     World (fs w) (calls w ++ [CallExists q]) (sink w ++ [NamingCollision q])).
Proof.
  intros Hq Hne Hex. unfold rename_item, bind, lift, path_exists.
  rewrite Hq, (path_eqb_neq p q Hne). simpl. rewrite Hex. reflexivity.
Qed.

Lemma rename_item_unchanged (nfkd : str -> str) (w : world) (p : path)
  (k : kind) (dry_run : bool) :
  valid_name (name p) = true ->
  sanitize_name nfkd (name p) = name p ->
  rename_item nfkd p k dry_run w = (inr tt, w).
Proof.
  intros Hv Hs. unfold rename_item, bind, lift.
  rewrite Hs, (with_name_same p Hv).
  now rewrite (proj2 (path_eqb_eq p p) eq_refl).
Qed.

Lemma rename_item_dry_run (nfkd : str -> str) (w : world) (p q : path)
  (k : kind) :
  with_name p (sanitize_name nfkd (name p)) = inr q ->
  q <> p ->
  fs_exists (fs w) q = false ->
  rename_item nfkd p k true w
  = (inr tt,
     World (fs w) (calls w ++ [CallExists q])
       (sink w ++ [DryRun k (name p) (sanitize_name nfkd (name p))])).
Proof.
  intros Hq Hne Hex. unfold rename_item, bind, lift, path_exists.
  rewrite Hq, (path_eqb_neq p q Hne). simpl. rewrite Hex. reflexivity.
Qed.

Lemma rename_item_invalid_name (nfkd : str -> str) (w : world) (p : path)
  (k : kind) (dry_run : bool) :
  name p <> [] ->
  invalid_name (sanitize_name nfkd (name p)) = true ->
  rename_item nfkd p k dry_run w
  = (inl (ValueError_invalid_name (sanitize_name nfkd (name p))), w).
Proof.
  intros Hn Hi. unfold rename_item, bind, lift, with_name.
  destruct (name p) eqn:E; [contradiction |]. now rewrite Hi.
Qed.

(** An exception raised for one entry ends the loop: the entries after
    it are not reached. *)
Lemma for_each_raises {A} (body : A -> M unit) (x : A) (rest : list A)
  (w w' : world) (e : exn) :
  body x w = (inl e, w') -> for_each (x :: rest) body w = (inl e, w').
Proof. intros H. simpl. unfold bind. now rewrite H. Qed.

Lemma invalid_name_aborts_loop (nfkd : str -> str) (w : world) (p : path)
  (dry_run : bool) (rest : list path) :
  name p <> [] ->
  invalid_name (sanitize_name nfkd (name p)) = true ->
  for_each (p :: rest) (process_entry nfkd dry_run) w
  = (inl (ValueError_invalid_name (sanitize_name nfkd (name p))),
     called (CallIsDir p) w).
Proof.
  intros Hn Hi. apply for_each_raises.
  unfold process_entry, bind, path_is_dir.
  now rewrite rename_item_invalid_name.
Qed.

(** * The tree renamer: the claims *)

(** C1. The code aborts the run on an entry whose name sanitizes to the
    empty string: [with_name] raises a [ValueError] outside the [try] of
    [rename_item], the exception leaves [rename_files], and the entries
    after it are never processed.  Here [vault/___] stops an apply run
    before [vault/My File.txt] is looked at: it is neither probed nor
    renamed. *)
Theorem empty_sanitized_name_aborts_run :
  processing_order tree_underscores vault
  = [in_vault "___"; in_vault "My File.txt"]
  /\ sanitize_name nfkd_latin1 (name (in_vault "___")) = []
  /\ rename_files nfkd_latin1 vault false (start tree_underscores)
     = (inl (ValueError_invalid_name []),
        World tree_underscores
          [CallExists vault; CallRglob vault; CallIsDir (in_vault "___")]
          [FoundItems 2])
  /\ rename_files nfkd_latin1 vault false
       (start (Dir true [folder "vault" [file "My File.txt"]]))
     = (inr tt,
        World (Dir true [folder "vault" [file "my-file.txt"]])
          [CallExists vault; CallRglob vault;
           CallIsDir (in_vault "My File.txt");
           CallExists (in_vault "my-file.txt");
           CallRename (in_vault "My File.txt") (in_vault "my-file.txt")]
          [FoundItems 1; Success (str_of "My File.txt") (str_of "my-file.txt")]).
Proof. repeat split. Qed.

(** C5, as the code has it.  An entry whose name is already sanitized is
    passed over in silence: [rename_item] returns without a record for the
    sink and without a filesystem call, the world is as it was, and the
    loop goes on with the next entry, its own [is_dir] probe being the one
    call made for the entry. *)
Theorem unchanged_name_is_passed_over (nfkd : str -> str) (w : world)
  (p : path) (k : kind) (dry_run : bool) (rest : list path) :
  valid_name (name p) = true ->
  sanitize_name nfkd (name p) = name p ->
  rename_item nfkd p k dry_run w = (inr tt, w)
  /\ for_each (p :: rest) (process_entry nfkd dry_run) w
     = for_each rest (process_entry nfkd dry_run) (called (CallIsDir p) w).
Proof.
  intros Hv Hs. split; [now apply rename_item_unchanged |].
  simpl. unfold bind at 1. unfold process_entry, bind, path_is_dir.
  now rewrite rename_item_unchanged.
Qed.

Lemma unchanged_name_is_passed_over_witness :
  rename_item nfkd_latin1 (in_vault "notes.txt") FILE false (start tree_clean)
  = (inr tt, start tree_clean).
Proof.
  apply (unchanged_name_is_passed_over nfkd_latin1 (start tree_clean)
           (in_vault "notes.txt") FILE false []); reflexivity.
Defined.

(** C5 as stated fails: for the one entry of [tree_clean], whose name is
    its own sanitized form, no record at all reaches the sink. *)
Lemma unchanged_name_emits_no_outcome :
  sanitize_name nfkd_latin1 (name (in_vault "notes.txt"))
  = name (in_vault "notes.txt")
  /\ processing_order tree_clean vault = [in_vault "notes.txt"]
  /\ sink (snd (rename_files nfkd_latin1 vault false (start tree_clean)))
     = [FoundItems 1]
  /\ ~ exists r : record,
         sink (snd (rename_item nfkd_latin1 (in_vault "notes.txt") FILE false
                      (start tree_clean)))
         = sink (start tree_clean) ++ [r].
Proof.
  repeat split. intros [r Hr]. discriminate Hr.
Qed.

(** X21. An entry whose sanitized path [Path.exists] finds taken is
    skipped: when the probe answers yes for a target other than the
    entry, [rename_item] logs the collision and returns, having asked
    only whether the target exists; no rename is attempted, nothing is
    raised, the tree still holds both names, and the loop goes on with
    the next entry. *)
Theorem collision_is_skipped (nfkd : str -> str) (w : world) (p q : path)
  (k : kind) (dry_run : bool) (rest : list path) :
  with_name p (sanitize_name nfkd (name p)) = inr q ->
  q <> p ->
  fs_exists (fs w) q = true ->
  rename_item nfkd p k dry_run w
  = (inr tt,
     World (fs w) (calls w ++ [CallExists q]) (sink w ++ [NamingCollision q]))
  /\ for_each (p :: rest) (process_entry nfkd dry_run) w
     = for_each rest (process_entry nfkd dry_run)
         (World (fs w) (calls w ++ [CallIsDir p; CallExists q])
            (sink w ++ [NamingCollision q])).
Proof.
  intros Hq Hne Hex. split; [now apply rename_item_collision |].
  simpl. unfold bind at 1. unfold process_entry, bind, path_is_dir.
  rewrite (rename_item_collision nfkd _ p q); [| assumption ..].
  simpl. now rewrite <- app_assoc.
Qed.

Lemma collision_is_skipped_witness :
  rename_item nfkd_latin1 (in_vault "File.txt") FILE false
    (start tree_collision)
  = (inr tt,
     World tree_collision [CallExists (in_vault "file.txt")]
       [NamingCollision (in_vault "file.txt")]).
Proof.
  apply (collision_is_skipped nfkd_latin1 (start tree_collision)
           (in_vault "File.txt") (in_vault "file.txt") FILE false []);
    [reflexivity | discriminate | reflexivity].
Defined.

Example collision_apply_run :
  rename_files nfkd_latin1 vault false (start tree_collision)
  = (inr tt,
     World tree_collision
       [CallExists vault; CallRglob vault;
        CallIsDir (in_vault "File.txt"); CallExists (in_vault "file.txt");
        CallIsDir (in_vault "file.txt")]
       [FoundItems 2; NamingCollision (in_vault "file.txt")]).
Proof. reflexivity. Qed.

(** C7. A name held by a link whose target is missing does not count as
    taken: [Path.exists] follows the link and answers no.  With
    [File.txt] beside a dangling link [file.txt], both in the snapshot,
    the apply run logs no collision for [File.txt] but renames it over
    the link and reports a success: the directory is left with the one
    name [file.txt]. *)
Theorem dangling_link_is_renamed_over :
  fs_rglob tree_dangling vault = [in_vault "File.txt"; in_vault "file.txt"]
  /\ lookup_entry (str_of "file.txt")
       [file "File.txt"; (str_of "file.txt", DanglingLink)]
     = Some DanglingLink
  /\ fs_exists tree_dangling (in_vault "file.txt") = false
  /\ rename_files nfkd_latin1 vault false (start tree_dangling)
     = (inr tt,
        World (Dir true [folder "vault" [file "file.txt"]])
          [CallExists vault; CallRglob vault;
           CallIsDir (in_vault "File.txt"); CallExists (in_vault "file.txt");
           CallRename (in_vault "File.txt") (in_vault "file.txt");
           CallIsDir (in_vault "file.txt")]
          [FoundItems 2; Success (str_of "File.txt") (str_of "file.txt")]).
Proof. repeat split. Qed.

(** C8. A dry run changes nothing: whatever the root and the world it
    starts in, [rename_files] with [dry_run=True] leaves the tree as it
    was (so listing it again gives the same names), asks for no rename,
    and reports nothing but its bookkeeping, collisions and, for each
    rename it would do, the old name with its sanitized form. *)
Theorem dry_run_mutates_nothing (nfkd : str -> str) (target_path : path)
  (w : world) :
  fs (snd (rename_files nfkd target_path true w)) = fs w
  /\ fs_rglob (fs (snd (rename_files nfkd target_path true w))) target_path
     = fs_rglob (fs w) target_path
  /\ (exists cs,
        calls (snd (rename_files nfkd target_path true w)) = calls w ++ cs
        /\ forall src dst, ~ In (CallRename src dst) cs)
  /\ (exists rs,
        sink (snd (rename_files nfkd target_path true w)) = sink w ++ rs
        /\ Forall (dry_record nfkd) rs)
  /\ (forall (p q : path) (k : kind) (w0 : world),
        with_name p (sanitize_name nfkd (name p)) = inr q ->
        q <> p ->
        fs_exists (fs w0) q = false ->
        rename_item nfkd p k true w0
        = (inr tt,
           World (fs w0) (calls w0 ++ [CallExists q])
             (sink w0 ++ [DryRun k (name p) (sanitize_name nfkd (name p))]))).
Proof.
  destruct (dry_rename_files nfkd target_path w)
    as (Hfs & (cs & Hc & Hcs) & (rs & Hr & Hrs)).
  split; [exact Hfs |]. split; [now rewrite Hfs |].
  split; [| split; [now exists rs |]].
  - exists cs. split; [exact Hc |]. intros src dst Hin.
    now apply (proj1 (Forall_forall _ _) Hcs) in Hin.
  - intros p q k w0. apply rename_item_dry_run.
Qed.

Lemma dry_run_mutates_nothing_witness :
  rename_item nfkd_latin1 [str_of "vault"; str_of "A"; str_of "b.TXT"] FILE
    true (start tree_nested)
  = (inr tt,
     World tree_nested
       [CallExists [str_of "vault"; str_of "A"; str_of "b.txt"]]
       [DryRun FILE (str_of "b.TXT") (str_of "b.txt")]).
Proof.
  destruct (dry_run_mutates_nothing nfkd_latin1 vault (start tree_nested))
    as (_ & _ & _ & _ & Hitem).
  apply (Hitem [str_of "vault"; str_of "A"; str_of "b.TXT"]
           [str_of "vault"; str_of "A"; str_of "b.txt"] FILE
           (start tree_nested));
    [reflexivity | discriminate | reflexivity].
Defined.

Example dry_run_nested :
  rename_files nfkd_latin1 vault true (start tree_nested)
  = (inr tt,
     World tree_nested
       [CallExists vault; CallRglob vault;
        CallIsDir [str_of "vault"; str_of "A"; str_of "b.TXT"];
        CallExists [str_of "vault"; str_of "A"; str_of "b.txt"];
        CallIsDir (in_vault "A"); CallExists (in_vault "a");
        CallIsDir (in_vault "notes.txt")]
       [FoundItems 3; DryRun FILE (str_of "b.TXT") (str_of "b.txt");
        DryRun FOLDER (str_of "A") (str_of "a")]).
Proof. reflexivity. Qed.

Example apply_run_nested :
  fs (snd (rename_files nfkd_latin1 vault false (start tree_nested)))
  = Dir true [folder "vault" [folder "a" [file "b.txt"]; file "notes.txt"]].
Proof. reflexivity. Qed.

(** ** The root *)

Lemma not_dir_no_descendants (root : node) (p : path) :
  fs_is_dir root p = false -> fs_rglob root p = [].
Proof.
  unfold fs_is_dir, fs_rglob.
  destruct (resolve root p) as [[| wr es |] |];
    [reflexivity | discriminate | reflexivity | reflexivity].
Qed.

(** C6, as the code has it.  A root that is not a directory, missing or
    not, is refused by the command [run_sanitizer] before anything is
    done.  [rename_files] itself checks existence only: for a missing root
    it logs the error and returns, nothing enumerated, nothing renamed; a
    root that exists without being a directory it does not refuse: the
    snapshot is empty, zero items are announced, nothing is renamed. *)
Theorem root_validation (nfkd : str -> str) (target_path : path)
  (dry_run apply : bool) (w : world) :
  fs_is_dir (fs w) target_path = false ->
  run_sanitizer nfkd target_path apply w
  = (inl (BadParameter target_path), called (CallStat target_path) w)
  /\ (fs_exists (fs w) target_path = false ->
      rename_files nfkd target_path dry_run w
      = (inr tt,
         World (fs w) (calls w ++ [CallExists target_path])
           (sink w ++ [PathDoesNotExist target_path])))
  /\ (fs_exists (fs w) target_path = true ->
      rename_files nfkd target_path dry_run w
      = (inr tt,
         World (fs w) (calls w ++ [CallExists target_path; CallRglob target_path])
           (sink w ++ [FoundItems 0]))).
Proof.
  intros Hdir. split; [| split].
  - unfold run_sanitizer, bind, path_stat, raise. unfold fs_is_dir in Hdir.
    destruct (resolve (fs w) target_path) as [[| wr es |] |];
      [reflexivity | discriminate | reflexivity | reflexivity].
  - intros Hex. unfold rename_files, bind, path_exists, log.
    now rewrite Hex.
  - intros Hex. unfold rename_files, bind, path_exists, path_rglob, log.
    rewrite Hex. simpl. rewrite (not_dir_no_descendants _ _ Hdir). simpl.
    now rewrite <- app_assoc.
Qed.

Lemma root_validation_witness :
  run_sanitizer nfkd_latin1 (in_vault "missing") true (start tree_clean)
  = (inl (BadParameter (in_vault "missing")),
     World tree_clean [CallStat (in_vault "missing")] [])
  /\ rename_files nfkd_latin1 (in_vault "missing") false (start tree_clean)
     = (inr tt,
        World tree_clean [CallExists (in_vault "missing")]
          [PathDoesNotExist (in_vault "missing")]).
Proof.
  destruct (root_validation nfkd_latin1 (in_vault "missing") false true
              (start tree_clean) eq_refl) as (Hcli & Hmissing & _).
  split; [exact Hcli | exact (Hmissing eq_refl)].
Defined.

(** C6 as stated fails: [vault/notes.txt] is a file, and [rename_files]
    run on it as root reports no error; it announces zero items and
    returns. *)
Lemma file_root_is_not_refused :
  fs_exists tree_clean (in_vault "notes.txt") = true
  /\ fs_is_dir tree_clean (in_vault "notes.txt") = false
  /\ rename_files nfkd_latin1 (in_vault "notes.txt") false (start tree_clean)
     = (inr tt,
        World tree_clean
          [CallExists (in_vault "notes.txt"); CallRglob (in_vault "notes.txt")]
          [FoundItems 0])
  /\ Forall (fun r => record_level r = INFO)
       (sink (snd (rename_files nfkd_latin1 (in_vault "notes.txt") false
                     (start tree_clean)))).
Proof. repeat split. repeat constructor. Qed.

(** * Further properties of the name transform *)

(** ** Length *)

Lemma sub_runs_length (cls : codepoint -> bool) (b : bool) (s : str) :
  (List.length (sub_runs cls [hyphen] b s) <= List.length s)%nat.
Proof.
  revert b. induction s as [| c t IH]; intros b; simpl; [lia |].
  destruct (cls c).
  - destruct b; simpl; [specialize (IH true) | specialize (IH true)]; lia.
  - simpl. specialize (IH false). lia.
Qed.

Lemma lstrip_length (chars : codepoint -> bool) (s : str) :
  (List.length (lstrip chars s) <= List.length s)%nat.
Proof.
  induction s as [| c t IH]; simpl; [lia |].
  destruct (chars c); simpl; lia.
Qed.

Lemma rstrip_length (chars : codepoint -> bool) (s : str) :
  (List.length (rstrip chars s) <= List.length s)%nat.
Proof.
  induction s as [| c t IH]; simpl; [lia |].
  destruct (rstrip chars t); [destruct (chars c) |]; simpl in *; lia.
Qed.

(** X1. The sanitized name is never longer than what is left of the
    input after decomposition and ASCII folding: lowering keeps the
    length, and each later pass can only shorten. *)
Theorem sanitize_name_length (nfkd : str -> str) (s : str) :
  (List.length (sanitize_name nfkd s)
   <= List.length (encode_ascii_ignore (nfkd s)))%nat
  /\ (List.length (encode_ascii_ignore (nfkd s)) <= List.length (nfkd s))%nat.
Proof.
  split; [| apply filter_length_le].
  unfold sanitize_name, re_sub_plus, strip.
  set (s0 := encode_ascii_ignore (nfkd s)).
  pose proof (rstrip_length is_hyphen
                (lstrip is_hyphen
                   (sub_runs is_hyphen [hyphen] false
                      (sub_runs not_keep [hyphen] false (lower s0))))).
  pose proof (lstrip_length is_hyphen
                (sub_runs is_hyphen [hyphen] false
                   (sub_runs not_keep [hyphen] false (lower s0)))).
  pose proof (sub_runs_length is_hyphen false
                (sub_runs not_keep [hyphen] false (lower s0))).
  pose proof (sub_runs_length not_keep false (lower s0)).
  assert (List.length (lower s0) = List.length s0) by apply length_map.
  lia.
Qed.

(** ** The characters that are kept *)

Lemma sub_runs_filter (P cls : codepoint -> bool) (b : bool) (s : str) :
  (forall c, cls c = true -> P c = false) ->
  P hyphen = false ->
  filter P (sub_runs cls [hyphen] b s) = filter P s.
Proof.
  intros Hcls Hh. revert b. induction s as [| c t IH]; intros b; simpl;
    [reflexivity |].
  destruct (cls c) eqn:Hc.
  - rewrite (Hcls c Hc). destruct b; simpl; [| rewrite Hh]; apply IH.
  - simpl. now rewrite IH.
Qed.

Lemma lstrip_filter (P : codepoint -> bool) (s : str) :
  P hyphen = false -> filter P (lstrip is_hyphen s) = filter P s.
Proof.
  intros Hh. induction s as [| c t IH]; simpl; [reflexivity |].
  destruct (is_hyphen c) eqn:Hc; [| reflexivity].
  apply is_hyphen_true in Hc. subst c. now rewrite Hh.
Qed.

Lemma rstrip_filter (P : codepoint -> bool) (s : str) :
  P hyphen = false -> filter P (rstrip is_hyphen s) = filter P s.
Proof.
  intros Hh. induction s as [| c t IH]; simpl; [reflexivity |].
  destruct (rstrip is_hyphen t) as [| d r].
  - rewrite <- IH. destruct (is_hyphen c) eqn:Hc; [| reflexivity].
    apply is_hyphen_true in Hc. subst c. now rewrite Hh.
  - rewrite <- IH. reflexivity.
Qed.

Lemma sanitize_name_filter_keep (nfkd : str -> str) (s : str) :
  filter keep (sanitize_name nfkd s)
  = filter keep (lower (encode_ascii_ignore (nfkd s))).
Proof.
  unfold sanitize_name, re_sub_plus, strip.
  rewrite rstrip_filter, lstrip_filter by reflexivity.
  rewrite (sub_runs_filter keep is_hyphen); [| | reflexivity].
  - apply sub_runs_filter; [| reflexivity].
    intros c Hc. unfold not_keep in Hc. now apply negb_true_iff in Hc.
  - intros c Hc. apply is_hyphen_true in Hc. now subst c.
Qed.

(** X2. Letters, digits and dots go through in order: the kept
    characters of the result are the kept characters of the lowered,
    ASCII-folded input, one for one, and every other character of the
    result is a hyphen; the passes after lowering only touch the
    separators. *)
Theorem sanitize_name_keeps_content (nfkd : str -> str) (s : str) :
  filter keep (sanitize_name nfkd s)
  = filter keep (lower (encode_ascii_ignore (nfkd s)))
  /\ filter not_keep (sanitize_name nfkd s)
     = repeat hyphen (List.length (filter not_keep (sanitize_name nfkd s))).
Proof.
  split; [apply sanitize_name_filter_keep |].
  destruct (proj1 (well_formedb_iff _) (sanitize_name_well_formedb nfkd s))
    as [Ha _ _ _].
  induction Ha as [| c t Hc _ IH]; [reflexivity |].
  cbn [filter]. unfold allowed in Hc.
  assert (not_keep c = negb (keep c)) as E by reflexivity.
  destruct (keep c); rewrite E; cbn [negb]; [exact IH |].
  cbn [List.length repeat orb] in *. rewrite <- IH. f_equal.
  now apply is_hyphen_true.
Qed.

(** ** Names the renamer cannot use *)

Lemma filter_nil_forall {A} (f : A -> bool) (l : list A) :
  filter f l = [] -> Forall (fun x => f x = false) l.
Proof.
  induction l as [| x t IH]; simpl; [constructor |].
  destruct (f x) eqn:Hx; [discriminate |]. intros H. constructor; auto.
Qed.

Lemma allowed_no_slash (s : str) :
  Forall (fun c => allowed c = true) s -> existsb (N.eqb slash) s = false.
Proof.
  induction 1 as [| c t Hc _ IH]; [reflexivity |].
  cbn [existsb]. rewrite IH, orb_false_r.
  apply N.eqb_neq. intros <-. discriminate Hc.
Qed.

(** X3. The transform returns the empty name exactly when the lowered,
    ASCII-folded input holds no letter, digit or dot: such names (all
    punctuation, all non-Latin script) are the ones that sanitize to
    nothing. *)
Theorem sanitize_name_empty_iff (nfkd : str -> str) (s : str) :
  sanitize_name nfkd s = []
  <-> filter keep (lower (encode_ascii_ignore (nfkd s))) = [].
Proof.
  rewrite <- sanitize_name_filter_keep. split; [now intros -> |].
  intros H.
  destruct (proj1 (well_formedb_iff _) (sanitize_name_well_formedb nfkd s))
    as [Ha Hl _ _].
  destruct (sanitize_name nfkd s) as [| c t]; [reflexivity | exfalso].
  apply filter_nil_forall in H.
  apply Forall_inv in H, Ha. unfold allowed in Ha. rewrite H in Ha.
  apply is_hyphen_true in Ha. subst c. now apply (Hl t).
Qed.

(** X4. [with_name] refuses a sanitized name in two cases only: the
    empty name and the single dot.  A sanitized name never holds a
    separator, so for an entry that has a name these are the only
    [ValueError]s [rename_item] can meet. *)
Theorem sanitized_name_rejected_iff (nfkd : str -> str) (p : path) :
  name p <> [] ->
  ((exists e, with_name p (sanitize_name nfkd (name p)) = inl e)
   <-> sanitize_name nfkd (name p) = []
       \/ sanitize_name nfkd (name p) = [dot])
  /\ (sanitize_name nfkd (name p) <> [] ->
      sanitize_name nfkd (name p) <> [dot] ->
      with_name p (sanitize_name nfkd (name p))
      = inr (removelast p ++ [sanitize_name nfkd (name p)])).
Proof.
  intros Hn.
  destruct (proj1 (well_formedb_iff _)
              (sanitize_name_well_formedb nfkd (name p))) as [Ha _ _ _].
  apply allowed_no_slash in Ha.
  unfold with_name, invalid_name.
  set (r := sanitize_name nfkd (name p)) in *.
  destruct (name p) as [| c0 t0]; [contradiction |].
  destruct r as [| c t].
  - split; [| contradiction].
    split; [now left | intros _; eexists; reflexivity].
  - rewrite Ha. cbn [orb].
    destruct (str_eqb (c :: t) [dot]) eqn:Ed.
    + apply str_eqb_eq in Ed. split; [| contradiction].
      split; [now right | intros _; eexists; reflexivity].
    + split; [| reflexivity].
      split; [intros [e He]; discriminate He |].
      intros [H | H]; [discriminate H |].
      apply str_eqb_eq in H. congruence.
Qed.

Lemma sanitized_name_rejected_iff_witness :
  (exists e, with_name (in_vault "!.!")
               (sanitize_name nfkd_latin1 (name (in_vault "!.!"))) = inl e)
  /\ with_name (in_vault "My File.txt")
       (sanitize_name nfkd_latin1 (name (in_vault "My File.txt")))
     = inr (in_vault "my-file.txt").
Proof.
  split.
  - apply (sanitized_name_rejected_iff nfkd_latin1 (in_vault "!.!"));
      [discriminate | now right].
  - apply (sanitized_name_rejected_iff nfkd_latin1 (in_vault "My File.txt"));
      discriminate.
Defined.

(** ** Case *)

Lemma lower_cp_idem (c : codepoint) : lower_cp (lower_cp c) = lower_cp c.
Proof.
  unfold lower_cp. destruct (is_upper c) eqn:Hu; [| now rewrite Hu].
  assert (is_upper (c + 32) = false) as ->; [| reflexivity].
  unfold is_upper in *. apply andb_true_iff in Hu. destruct Hu as [H1 H2].
  apply N.leb_le in H1, H2. apply andb_false_iff. right. apply N.leb_gt. lia.
Qed.

Lemma lower_cp_ascii (c : codepoint) :
  is_ascii c = true -> is_ascii (lower_cp c) = true.
Proof.
  unfold is_ascii, lower_cp, is_upper. intros H. apply N.ltb_lt in H.
  destruct (65 <=? c) eqn:H1; [| now apply N.ltb_lt].
  destruct (N.leb_spec c 90); simpl; apply N.ltb_lt; lia.
Qed.

(** X5. Case is forgotten: an ASCII name and its lowercase form have one
    sanitized name, so names that differ in the case of their letters
    only are sent to the same target (for a normalisation that leaves
    ASCII alone). *)
Theorem sanitize_name_ignores_case (nfkd : str -> str)
  (nfkd_ascii : forall s, Forall (fun c => is_ascii c = true) s -> nfkd s = s)
  (s : str) :
  Forall (fun c => is_ascii c = true) s ->
  sanitize_name nfkd (lower s) = sanitize_name nfkd s.
Proof.
  intros Hs.
  assert (Forall (fun c => is_ascii c = true) (lower s)) as Hl.
  { unfold lower. apply Forall_forall. intros c Hc. apply in_map_iff in Hc.
    destruct Hc as (d & <- & Hd). apply lower_cp_ascii.
    exact (proj1 (Forall_forall _ _) Hs d Hd). }
  unfold sanitize_name, encode_ascii_ignore.
  rewrite (nfkd_ascii _ Hs), (nfkd_ascii _ Hl).
  rewrite (filter_fixed _ _ Hs), (filter_fixed _ _ Hl).
  replace (lower (lower s)) with (lower s); [reflexivity |].
  unfold lower. rewrite map_map. apply map_ext. intros c.
  symmetry. apply lower_cp_idem.
Qed.

Lemma sanitize_name_ignores_case_witness :
  sanitize_name nfkd_latin1 (str_of "file.txt")
  = sanitize_name nfkd_latin1 (str_of "File.TXT").
Proof.
  apply (sanitize_name_ignores_case nfkd_latin1 nfkd_latin1_ascii
           (str_of "File.TXT")).
  repeat constructor.
Defined.

(** ** The second substitution *)

Lemma sub_not_keep_no_double (s : str) (b : bool) :
  double_hyphen (sub_runs not_keep [hyphen] b s) = false
  /\ (b = true -> head_hyphen (sub_runs not_keep [hyphen] b s) = false).
Proof.
  revert b. induction s as [| c t IH]; intros b; simpl; [now split |].
  destruct (not_keep c) eqn:Hc.
  - destruct (IH true) as [Hd Hh]. specialize (Hh eq_refl).
    destruct b; simpl.
    + now split.
    + rewrite Hh, Hd. split; [reflexivity | discriminate].
  - destruct (IH false) as [Hd _].
    unfold not_keep in Hc. apply negb_false_iff in Hc.
    simpl. rewrite (keep_not_hyphen c Hc), Hd. now split.
Qed.

(** X6. The pass that collapses runs of hyphens finds none: the first
    substitution already leaves single hyphens only, so the second
    [re.sub] returns its argument, and the transform is the first
    substitution followed by the strip. *)
Theorem collapse_pass_is_identity (nfkd : str -> str) (s : str) :
  re_sub_plus is_hyphen [hyphen] (re_sub_plus not_keep [hyphen] s)
  = re_sub_plus not_keep [hyphen] s
  /\ sanitize_name nfkd s
     = strip is_hyphen
         (re_sub_plus not_keep [hyphen] (lower (encode_ascii_ignore (nfkd s)))).
Proof.
  assert (forall u, re_sub_plus is_hyphen [hyphen]
                      (re_sub_plus not_keep [hyphen] u)
                    = re_sub_plus not_keep [hyphen] u) as H.
  { intros u. unfold re_sub_plus. apply sub_runs_fixed.
    - apply Forall_forall. intros c _. apply is_hyphen_true.
    - apply sub_not_keep_no_double.
    - discriminate. }
  split; [apply H |]. unfold sanitize_name. now rewrite H.
Qed.

(** * Further properties of the tree renamer *)

(** ** Resolution of plain paths *)

Lemma valid_name_plain (seg : str) : valid_name seg = true -> plain seg.
Proof.
  unfold valid_name, plain. destruct seg as [| c t]; [discriminate |].
  intros H.
  apply andb_true_iff in H. destruct H as [H H4].
  apply andb_true_iff in H. destruct H as [_ H3].
  apply negb_true_iff in H3, H4. now split.
Qed.

Lemma valid_path_plain (p : path) : valid_path p -> Forall plain p.
Proof. apply Forall_impl, valid_name_plain. Qed.

Lemma resolve_from_walk (p : path) (up : list node) (cur : node) :
  Forall plain p -> resolve_from up cur p = walk cur p.
Proof.
  intros H. revert up cur. induction H as [| seg rest [H1 H2] _ IH];
    intros up cur; [reflexivity |].
  cbn [resolve_from walk]. destruct cur as [| w es |]; [reflexivity | | reflexivity].
  rewrite H1, H2. destruct (lookup_entry seg es); [apply IH | reflexivity].
Qed.

Lemma resolve_walk (root : node) (p : path) :
  Forall plain p -> resolve root p = walk root p.
Proof. apply resolve_from_walk. Qed.

Lemma walk_app (a b : path) (cur : node) :
  walk cur (a ++ b)
  = match walk cur a with
    | Some n => walk n b
    | None => None
    end.
Proof.
  revert cur. induction a as [| seg a IH]; intros cur.
  - destruct cur; try reflexivity. now destruct b.
  - cbn [app walk]. destruct cur as [| w es |]; [reflexivity | | reflexivity].
    destruct (lookup_entry seg es); [apply IH | reflexivity].
Qed.

Lemma walk_nil_some (cur n : node) : walk cur [] = Some n -> cur = n.
Proof. destruct cur; cbn; intros H; now inversion H. Qed.


(** [".."] at the end of a path through directories always resolves:
    a sanitized name [".."] is met as a collision, never renamed to. *)
Lemma resolve_from_dotdot (dir : path) (up : list node) (cur : node)
  (w : bool) (es : list (str * node)) :
  Forall plain dir ->
  Forall (fun d => d <> DanglingLink) up ->
  resolve_from up cur dir = Some (Dir w es) ->
  exists n, resolve_from up cur (dir ++ [[dot; dot]]) = Some n.
Proof.
  intros H. revert up cur. induction H as [| seg rest [H1 H2] _ IH];
    intros up cur Hup Hr.
  - destruct cur as [| w0 es0 |]; try discriminate Hr. cbn.
    destruct up as [| d up']; [eexists; reflexivity |].
    apply Forall_inv in Hup. destruct d; [eexists .. | contradiction];
      reflexivity.
  - cbn [app resolve_from] in *.
    destruct cur as [| w0 es0 |]; try discriminate Hr.
    rewrite H1, H2 in *.
    destruct (lookup_entry seg es0); [| discriminate].
    apply IH; [| exact Hr]. constructor; [discriminate | exact Hup].
Qed.

(** ** Entries of a directory *)

Lemma str_eqb_refl (a : str) : str_eqb a a = true.
Proof. now apply str_eqb_eq. Qed.

Lemma str_eqb_false (a b : str) : a <> b -> str_eqb a b = false.
Proof.
  intros H. destruct (str_eqb a b) eqn:E; [| reflexivity].
  apply str_eqb_eq in E. contradiction.
Qed.

Lemma str_eqb_sym (a b : str) : str_eqb a b = str_eqb b a.
Proof.
  destruct (str_eqb b a) eqn:E.
  - apply str_eqb_eq in E. subst. apply str_eqb_refl.
  - apply str_eqb_false. intros ->. now rewrite str_eqb_refl in E.
Qed.


Lemma lookup_rename_new (old new : str) (es : list (str * node)) (n : node) :
  lookup_entry old es = Some n ->
  lookup_entry new es = None ->
  lookup_entry new (rename_entry old new es) = Some n.
Proof.
  induction es as [| [k' v] t IH]; [discriminate |].
  cbn [rename_entry lookup_entry]. rewrite (str_eqb_sym k' old).
  destruct (str_eqb old k') eqn:Eo.
  - intros H _. cbn [lookup_entry]. now rewrite str_eqb_refl.
  - destruct (str_eqb new k') eqn:En; [discriminate |].
    intros Ho Hn. cbn [lookup_entry]. rewrite En. now apply IH.
Qed.

Lemma lookup_none_notin (k : str) (es : list (str * node)) :
  ~ In k (map fst es) -> lookup_entry k es = None.
Proof.
  induction es as [| [k' v] t IH]; [reflexivity |].
  cbn [map fst In lookup_entry]. intros H.
  rewrite str_eqb_false by (intros ->; apply H; now left).
  apply IH. intros Hin. apply H. now right.
Qed.

Lemma lookup_rename_old (old new : str) (es : list (str * node)) :
  old <> new ->
  NoDup (map fst es) ->
  lookup_entry old (rename_entry old new es) = None.
Proof.
  intros Hne. induction es as [| [k' v] t IH]; [reflexivity |].
  cbn [map fst rename_entry]. intros Hnd. inversion Hnd as [| ? ? Hk Ht]; subst.
  destruct (str_eqb k' old) eqn:E.
  - apply str_eqb_eq in E. subst k'. cbn [lookup_entry].
    rewrite (str_eqb_false old new Hne). now apply lookup_none_notin.
  - cbn [lookup_entry]. rewrite (str_eqb_sym old k'), E. now apply IH.
Qed.

Lemma lookup_update_same (seg : str) (h : node -> node)
  (es : list (str * node)) :
  lookup_entry seg
    (map (fun e => if str_eqb (fst e) seg then (fst e, h (snd e)) else e) es)
  = option_map h (lookup_entry seg es).
Proof.
  induction es as [| [k v] t IH]; [reflexivity |].
  cbn [map fst snd lookup_entry]. rewrite (str_eqb_sym seg k).
  destruct (str_eqb k seg) eqn:E; cbn [lookup_entry].
  - apply str_eqb_eq in E. subst k. now rewrite str_eqb_refl.
  - now rewrite (str_eqb_sym seg k), E.
Qed.


(** ** Well-formed trees *)










(** ** A rename inside the tree *)

Lemma lookup_rename_new_eq (old new : str) (es : list (str * node)) :
  lookup_entry new es = None ->
  lookup_entry new (rename_entry old new es) = lookup_entry old es.
Proof.
  induction es as [| [k' v] t IH]; [reflexivity |].
  cbn [rename_entry lookup_entry]. rewrite (str_eqb_sym k' old).
  destruct (str_eqb new k') eqn:En; [discriminate |].
  destruct (str_eqb old k') eqn:Eo; cbn [lookup_entry].
  - now rewrite str_eqb_refl.
  - rewrite En. exact IH.
Qed.

Lemma walk_update_dir (dir : path) (cur : node) (w : bool)
  (es : list (str * node)) (f : list (str * node) -> list (str * node)) :
  walk cur dir = Some (Dir w es) ->
  walk (update_dir cur dir f) dir = Some (Dir w (f es)).
Proof.
  revert cur. induction dir as [| seg rest IH]; intros cur H.
  - apply walk_nil_some in H. now subst cur.
  - cbn [walk] in H. destruct cur as [| w0 es0 |]; try discriminate.
    cbn [update_dir walk].
    rewrite (lookup_update_same seg (fun n => update_dir n rest f)).
    destruct (lookup_entry seg es0) as [n |]; [| discriminate].
    cbn [option_map]. now apply IH.
Qed.

Lemma walk_moved_entry (root : node) (dir : path) (old new : str) (w : bool)
  (es : list (str * node)) :
  walk root dir = Some (Dir w es) ->
  lookup_entry new es = None ->
  walk (update_dir root dir (rename_entry old new)) (dir ++ [new])
  = walk root (dir ++ [old]).
Proof.
  intros Hd Hn. rewrite !walk_app, (walk_update_dir dir root w es _ Hd), Hd.
  cbn [walk]. now rewrite (lookup_rename_new_eq old new es Hn).
Qed.

Lemma walk_old_gone (root : node) (dir : path) (old new : str) (w : bool)
  (es : list (str * node)) :
  walk root dir = Some (Dir w es) ->
  old <> new ->
  NoDup (map fst es) ->
  walk (update_dir root dir (rename_entry old new)) (dir ++ [old]) = None.
Proof.
  intros Hd Hne Hnd. rewrite walk_app, (walk_update_dir dir root w es _ Hd).
  cbn [walk]. now rewrite (lookup_rename_old old new es Hne Hnd).
Qed.


Lemma path_eqb_refl (p : path) : path_eqb p p = true.
Proof. now apply path_eqb_eq. Qed.

Lemma valid_path_app (a b : path) :
  valid_path (a ++ b) -> valid_path a /\ valid_path b.
Proof. apply Forall_app. Qed.

Lemma name_last (dir : path) (x : str) : name (dir ++ [x]) = x.
Proof. apply last_last. Qed.

(** Entries of a directory with one name taken out. *)
Lemma lookup_remove_other (k x : str) (es : list (str * node)) :
  k <> x -> lookup_entry k (remove_entry x es) = lookup_entry k es.
Proof.
  intros Hne. induction es as [| [k' v] t IH]; [reflexivity |].
  cbn [remove_entry]. destruct (str_eqb k' x) eqn:E; cbn [lookup_entry].
  - apply str_eqb_eq in E. subst k'. now rewrite (str_eqb_false k x Hne).
  - now rewrite IH.
Qed.

Lemma remove_entry_keys (k x : str) (es : list (str * node)) :
  In k (map fst (remove_entry x es)) -> In k (map fst es).
Proof.
  induction es as [| [k' v] t IH]; [intros [] |].
  cbn [remove_entry]. destruct (str_eqb k' x); cbn [map fst In]; auto.
  intros [H | H]; auto.
Qed.

Lemma remove_entry_nodup (x : str) (es : list (str * node)) :
  NoDup (map fst es) ->
  NoDup (map fst (remove_entry x es)) /\ ~ In x (map fst (remove_entry x es)).
Proof.
  induction es as [| [k' v] t IH]; [split; [constructor | intros []] |].
  cbn [map fst]. intros Hnd. inversion Hnd as [| ? ? Hk Ht]; subst.
  cbn [remove_entry]. destruct (str_eqb k' x) eqn:E.
  - apply str_eqb_eq in E. subst k'. now split.
  - destruct (IH Ht) as [H1 H2]. cbn [map fst]. split.
    + constructor; [| exact H1]. intros H. apply Hk.
      now apply remove_entry_keys in H.
    + intros [H | H]; [| contradiction].
      subst k'. now rewrite str_eqb_refl in E.
Qed.

(** [os.rename] of an entry beside it in a directory that may not be
    written: refused with [PermissionError]. *)
Lemma os_rename_denied (root : node) (dir : path) (old new : str)
  (es : list (str * node)) (n : node) :
  valid_path (dir ++ [old]) ->
  valid_name new = true ->
  walk root dir = Some (Dir false es) ->
  lookup_entry old es = Some n ->
  os_rename root (dir ++ [old]) (dir ++ [new])
  = inl (PermissionError (dir ++ [old])).
Proof.
  intros Hv Hnew Hd Ho.
  destruct (valid_path_app _ _ Hv) as [Hvd Hvo].
  unfold os_rename. rewrite !removelast_last, !name_last.
  rewrite (resolve_walk root dir (valid_path_plain _ Hvd)), Hd.
  apply Forall_inv in Hvo. rewrite Hvo. cbn [negb].
  now rewrite Ho, path_eqb_refl, Hnew.
Qed.


(** When [os.rename] of an entry to a valid name beside it succeeds, the
    entry has taken the name: freely, or in place of what held it. *)
Lemma os_rename_done (root : node) (dir : path) (old new : str) (w : bool)
  (es : list (str * node)) (n tree : node) :
  valid_path (dir ++ [old]) ->
  new <> old ->
  walk root dir = Some (Dir w es) ->
  lookup_entry old es = Some n ->
  os_rename root (dir ++ [old]) (dir ++ [new]) = inr tree ->
  (lookup_entry new es = None
   /\ tree = update_dir root dir (rename_entry old new))
  \/ tree = update_dir root dir
              (fun es => rename_entry old new (remove_entry new es)).
Proof.
  intros Hv Hne Hd Ho.
  destruct (valid_path_app _ _ Hv) as [Hvd Hvo].
  unfold os_rename. rewrite !removelast_last, !name_last.
  rewrite (resolve_walk root dir (valid_path_plain _ Hvd)), Hd.
  apply Forall_inv in Hvo. rewrite Hvo. cbn [negb].
  rewrite Ho, path_eqb_refl. cbn [negb orb].
  destruct (valid_name new); cbn [negb]; [| discriminate].
  destruct w; cbn [negb]; [| discriminate].
  rewrite (str_eqb_false old new) by congruence.
  destruct (lookup_entry new es) as [[| w' [| e es'] |] |], n;
    intros H; inversion H; auto.
Qed.

Lemma walk_update_entry (root : node) (dir : path) (x : str) (w : bool)
  (es : list (str * node)) (f : list (str * node) -> list (str * node)) :
  walk root dir = Some (Dir w es) ->
  walk (update_dir root dir f) (dir ++ [x])
  = match lookup_entry x (f es) with
    | Some c => walk c []
    | None => None
    end.
Proof.
  intros Hd. now rewrite walk_app, (walk_update_dir dir root w es f Hd).
Qed.

(** After such a rename the new name leads where the old one led, and
    the old one nowhere. *)
Lemma walk_after_os_rename (root : node) (dir : path) (old new : str)
  (w : bool) (es : list (str * node)) (n tree : node) :
  valid_path (dir ++ [old]) ->
  new <> old ->
  NoDup (map fst es) ->
  walk root dir = Some (Dir w es) ->
  lookup_entry old es = Some n ->
  os_rename root (dir ++ [old]) (dir ++ [new]) = inr tree ->
  walk tree (dir ++ [new]) = walk root (dir ++ [old])
  /\ walk tree (dir ++ [old]) = None.
Proof.
  intros Hv Hne Hnd Hd Ho Hren.
  assert (walk root (dir ++ [old]) = walk n []) as ->
    by (rewrite walk_app, Hd; cbn [walk]; now rewrite Ho).
  destruct (os_rename_done root dir old new w es n tree Hv Hne Hd Ho Hren)
    as [[Hn ->] | ->]; rewrite !(walk_update_entry root dir _ w es _ Hd).
  - rewrite (lookup_rename_new_eq old new es Hn), Ho.
    now rewrite (lookup_rename_old old new es) by congruence.
  - destruct (remove_entry_nodup new es Hnd) as [Hnd' Hnew].
    rewrite (lookup_rename_new_eq old new _ (lookup_none_notin _ _ Hnew)).
    rewrite (lookup_remove_other old new es) by congruence.
    rewrite Ho.
    now rewrite (lookup_rename_old old new _) by congruence.
Qed.

Lemma allowed_no_nul (s : str) :
  Forall (fun c => allowed c = true) s -> existsb (N.eqb 0) s = false.
Proof.
  induction 1 as [| c t Hc _ IH]; [reflexivity |].
  cbn [existsb]. rewrite IH, orb_false_r.
  apply N.eqb_neq. intros <-. discriminate Hc.
Qed.

(** A sanitized name that [with_name] accepts and that is not [".."] is a
    name an entry can have. *)
Lemma sanitized_valid_name (nfkd : str -> str) (s : str) :
  invalid_name (sanitize_name nfkd s) = false ->
  sanitize_name nfkd s <> [dot; dot] ->
  valid_name (sanitize_name nfkd s) = true.
Proof.
  destruct (proj1 (well_formedb_iff _) (sanitize_name_well_formedb nfkd s))
    as [Ha _ _ _].
  pose proof (allowed_no_slash _ Ha) as Hs.
  pose proof (allowed_no_nul _ Ha) as Hz.
  unfold invalid_name, valid_name.
  destruct (sanitize_name nfkd s) as [| c t]; [discriminate |].
  rewrite Hs, Hz. cbn [orb negb andb]. intros -> Hdd.
  now rewrite (str_eqb_false _ _ Hdd).
Qed.

(** A sanitized name that [with_name] accepts and that the probe does
    not find in a directory is a name an entry can have. *)
Lemma sanitized_target_valid (nfkd : str -> str) (root : node) (dir : path)
  (old : str) (wr : bool) (es : list (str * node)) :
  Forall plain dir ->
  walk root dir = Some (Dir wr es) ->
  invalid_name (sanitize_name nfkd old) = false ->
  fs_exists root (dir ++ [sanitize_name nfkd old]) = false ->
  valid_name (sanitize_name nfkd old) = true.
Proof.
  intros Hpd Hd Hinv Hfree. apply sanitized_valid_name; [exact Hinv |].
  intros E. rewrite E in Hfree. unfold fs_exists, resolve in Hfree.
  destruct (resolve_from_dotdot dir [] root wr es Hpd) as [x Hx].
  - constructor.
  - now rewrite resolve_from_walk.
  - match type of Hfree with
    | match ?t with _ => _ end = _ =>
        assert (t = Some x) as Hx' by exact Hx;
        destruct t; [discriminate Hfree | discriminate Hx']
    end.
Qed.

Lemma with_name_last (dir : path) (old new : str) :
  old <> [] ->
  invalid_name new = false ->
  with_name (dir ++ [old]) new = inr (dir ++ [new]).
Proof.
  intros Hold Hinv. unfold with_name. rewrite name_last, removelast_last, Hinv.
  now destruct old.
Qed.

(** What [rename_item] does in apply mode with an entry [old] of the
    directory [dir], when the sanitized name differs, is accepted and is
    not found by the probe: it asks for the rename and reports what came
    of it. *)
Lemma rename_item_attempt (nfkd : str -> str) (w : world) (dir : path)
  (old : str) (k : kind) :
  old <> [] ->
  sanitize_name nfkd old <> old ->
  invalid_name (sanitize_name nfkd old) = false ->
  fs_exists (fs w) (dir ++ [sanitize_name nfkd old]) = false ->
  rename_item nfkd (dir ++ [old]) k false w
  = (inr tt,
     match os_rename (fs w) (dir ++ [old]) (dir ++ [sanitize_name nfkd old]) with
     | inr tree =>
         World tree
           (calls w ++ [CallExists (dir ++ [sanitize_name nfkd old]);
                        CallRename (dir ++ [old])
                          (dir ++ [sanitize_name nfkd old])])
           (sink w ++ [Success old (sanitize_name nfkd old)])
     | inl e =>
         World (fs w)
           (calls w ++ [CallExists (dir ++ [sanitize_name nfkd old]);
                        CallRename (dir ++ [old])
                          (dir ++ [sanitize_name nfkd old])])
           (sink w ++ [match e with
                       | PermissionError _ => PermissionDenied k old
                       | _ => UnexpectedError e
                       end])
     end).
Proof.
  intros Hold Hne Hinv Hfree.
  unfold rename_item, bind, lift.
  rewrite !name_last, (with_name_last dir old _ Hold Hinv).
  rewrite path_eqb_neq
    by (intros E; apply app_inj_tail in E; destruct E as [_ E]; now apply Hne).
  unfold path_exists. rewrite Hfree. cbn [fst snd].
  unfold try_except, path_rename, bind, called, log. cbn [fs calls sink].
  destruct (os_rename (fs w) (dir ++ [old])
              (dir ++ [sanitize_name nfkd old])) as [e | tree];
    cbn [fs calls sink].
  - destruct e; cbn [fs calls sink]; now rewrite <- !app_assoc.
  - now rewrite <- !app_assoc.
Qed.

Lemma with_name_inr (p q : path) (new : str) :
  with_name p new = inr q ->
  exists dir old, p = dir ++ [old] /\ old <> [] /\ q = dir ++ [new]
                  /\ invalid_name new = false.
Proof.
  unfold with_name. destruct (name p) as [| c t] eqn:E; [discriminate |].
  destruct (invalid_name new) eqn:Hi; [discriminate |].
  intros H. injection H as <-.
  destruct p as [| s p'] using rev_ind; [discriminate E |].
  rewrite name_last in E. exists p', s.
  rewrite removelast_last. repeat split; congruence.
Qed.

Lemma valid_name_nonempty (n : str) : valid_name n = true -> n <> [].
Proof. now destruct n. Qed.



(** ** One entry in apply mode *)

(** X7. In apply mode, when the sanitized target has a name the system
    takes, the probe does not find it and the rename succeeds, the entry
    has moved: [rename_item] has made one existence probe and one rename
    call and logs a success, the new path leads to the very node the old
    path led to, and the old path to nothing. *)
Theorem apply_renames_entry (nfkd : str -> str) (w : world) (dir : path)
  (old : str) (k : kind) (wr : bool) (es : list (str * node))
  (n tree : node) :
  valid_path (dir ++ [old]) ->
  resolve (fs w) dir = Some (Dir wr es) ->
  resolve (fs w) (dir ++ [old]) = Some n ->
  NoDup (map fst es) ->
  sanitize_name nfkd old <> old ->
  invalid_name (sanitize_name nfkd old) = false ->
  name_fits (sanitize_name nfkd old) = true ->
  fs_exists (fs w) (dir ++ [sanitize_name nfkd old]) = false ->
  os_rename (fs w) (dir ++ [old]) (dir ++ [sanitize_name nfkd old])
  = inr tree ->
  rename_item nfkd (dir ++ [old]) k false w
  = (inr tt,
     World tree
       (calls w ++ [CallExists (dir ++ [sanitize_name nfkd old]);
                    CallRename (dir ++ [old])
                      (dir ++ [sanitize_name nfkd old])])
       (sink w ++ [Success old (sanitize_name nfkd old)]))
  /\ resolve tree (dir ++ [sanitize_name nfkd old]) = Some n
  /\ fs_exists tree (dir ++ [old]) = false.
Proof.
  intros Hv Hd Hp Hnd Hne Hinv _ Hfree Hren.
  destruct (valid_path_app _ _ Hv) as [Hvd Hvo].
  pose proof (valid_path_plain _ Hvd) as Hpd.
  pose proof (valid_path_plain _ Hv) as Hpp.
  apply Forall_inv in Hvo.
  rewrite (resolve_walk _ _ Hpd) in Hd.
  rewrite (resolve_walk _ _ Hpp) in Hp.
  set (new := sanitize_name nfkd old) in *.
  pose proof (sanitized_target_valid nfkd (fs w) dir old wr es Hpd Hd Hinv Hfree)
    as Hvn. fold new in Hvn.
  assert (Forall plain (dir ++ [new])) as Hpq.
  { apply Forall_app. split; [exact Hpd |].
    constructor; [now apply valid_name_plain | constructor]. }
  pose proof Hp as Hp'. rewrite walk_app, Hd in Hp'. cbn [walk] in Hp'.
  destruct (lookup_entry old es) as [m |] eqn:Ho; [| discriminate].
  destruct (walk_after_os_rename (fs w) dir old new wr es m tree
              Hv Hne Hnd Hd Ho Hren) as [Hnew Hold].
  split; [| split].
  - rewrite (rename_item_attempt nfkd w dir old k
               (valid_name_nonempty _ Hvo) Hne Hinv Hfree).
    fold new. now rewrite Hren.
  - now rewrite (resolve_walk _ _ Hpq), Hnew.
  - unfold fs_exists. now rewrite (resolve_walk _ _ Hpp), Hold.
Qed.

Lemma apply_renames_entry_witness :
  rename_item nfkd_latin1 (in_vault "My File.txt") FILE false
    (start tree_underscores)
  = (inr tt,
     World (Dir true [folder "vault" [file "___"; file "my-file.txt"]])
       [CallExists (in_vault "my-file.txt");
        CallRename (in_vault "My File.txt") (in_vault "my-file.txt")]
       [Success (str_of "My File.txt") (str_of "my-file.txt")])
  /\ resolve (Dir true [folder "vault" [file "___"; file "my-file.txt"]])
       (in_vault "my-file.txt") = Some File
  /\ fs_exists (Dir true [folder "vault" [file "___"; file "my-file.txt"]])
       (in_vault "My File.txt") = false.
Proof.
  apply (apply_renames_entry nfkd_latin1 (start tree_underscores) vault
           (str_of "My File.txt") FILE true
           [file "___"; file "My File.txt"] File).
  - repeat constructor.
  - reflexivity.
  - reflexivity.
  - repeat constructor; simpl; intuition discriminate.
  - discriminate.
  - reflexivity.
  - reflexivity.
  - reflexivity.
  - reflexivity.
Defined.

(** X8. In apply mode a rename refused for want of write permission on
    the directory is reported and passed over: [rename_item] returns
    normally with a permission-denied record for the entry, and the tree
    is as it was. *)
Theorem permission_denied_is_reported (nfkd : str -> str) (w : world)
  (dir : path) (old : str) (k : kind) (es : list (str * node)) (n : node) :
  valid_path (dir ++ [old]) ->
  resolve (fs w) dir = Some (Dir false es) ->
  lookup_entry old es = Some n ->
  sanitize_name nfkd old <> old ->
  invalid_name (sanitize_name nfkd old) = false ->
  fs_exists (fs w) (dir ++ [sanitize_name nfkd old]) = false ->
  rename_item nfkd (dir ++ [old]) k false w
  = (inr tt,
     World (fs w)
       (calls w ++ [CallExists (dir ++ [sanitize_name nfkd old]);
                    CallRename (dir ++ [old]) (dir ++ [sanitize_name nfkd old])])
       (sink w ++ [PermissionDenied k old])).
Proof.
  intros Hv Hd Ho Hne Hinv Hfree.
  destruct (valid_path_app _ _ Hv) as [Hvd Hvo].
  pose proof (valid_path_plain _ Hvd) as Hpd.
  apply Forall_inv in Hvo.
  rewrite (resolve_walk _ _ Hpd) in Hd.
  rewrite (rename_item_attempt nfkd w dir old k
             (valid_name_nonempty _ Hvo) Hne Hinv Hfree).
  rewrite (os_rename_denied (fs w) dir old _ es n Hv
             (sanitized_target_valid nfkd (fs w) dir old false es
                Hpd Hd Hinv Hfree)
             Hd Ho).
  reflexivity.
Qed.

Lemma permission_denied_is_reported_witness :
  rename_item nfkd_latin1 (in_vault "My File.txt") FILE false
    (start (Dir true [(str_of "vault", Dir false [file "My File.txt"])]))
  = (inr tt,
     World (Dir true [(str_of "vault", Dir false [file "My File.txt"])])
       [CallExists (in_vault "my-file.txt");
        CallRename (in_vault "My File.txt") (in_vault "my-file.txt")]
       [PermissionDenied FILE (str_of "My File.txt")]).
Proof.
  apply (permission_denied_is_reported nfkd_latin1
           (start (Dir true [(str_of "vault", Dir false [file "My File.txt"])]))
           vault (str_of "My File.txt") FILE [file "My File.txt"] File);
    try reflexivity.
  - repeat constructor.
  - discriminate.
Defined.



Lemma rename_item_outcome (nfkd : str -> str)
  (p : path) (k : kind) (dry_run : bool) (w : world) :
  match with_name p (sanitize_name nfkd (name p)) with
  | inl e => rename_item nfkd p k dry_run w = (inl e, w)
  | inr _ => fst (rename_item nfkd p k dry_run w) = inr tt
  end.
Proof.
  unfold rename_item, bind, lift.
  destruct (with_name p (sanitize_name nfkd (name p))) as [e | q];
    [reflexivity |].
  destruct (path_eqb p q); [reflexivity |].
  unfold path_exists. cbn [fst snd].
  destruct (fs_exists (fs w) q); [reflexivity |].
  destruct dry_run; [reflexivity |].
  unfold try_except, path_rename, bind, called. cbn [fs calls sink].
  destruct (os_rename (fs w) p q) as [e | tree]; [| reflexivity].
  now destruct e.
Qed.

(** X10. What the rename does stays inside [rename_item].  When
    [with_name] refuses the sanitized name, the [ValueError] leaves
    [rename_item] before anything is asked of the filesystem or logged.
    When the target is computed, differs from the entry, has a name the
    system takes and is not found by the probe, the apply mode asks for
    the rename and returns normally
    whatever comes of it, with one record: a success with the renamed
    tree, permission denied for a [PermissionError], or an unexpected
    error carrying any other exception, the tree untouched. *)
Theorem rename_outcome_is_contained (nfkd : str -> str) (w : world)
  (p : path) (k : kind) :
  (forall e dry_run,
      with_name p (sanitize_name nfkd (name p)) = inl e ->
      rename_item nfkd p k dry_run w = (inl e, w))
  /\ (forall q,
        with_name p (sanitize_name nfkd (name p)) = inr q ->
        q <> p ->
        name_fits (sanitize_name nfkd (name p)) = true ->
        fs_exists (fs w) q = false ->
        rename_item nfkd p k false w
        = (inr tt,
           match os_rename (fs w) p q with
           | inr tree =>
               World tree (calls w ++ [CallExists q; CallRename p q])
                 (sink w ++ [Success (name p) (sanitize_name nfkd (name p))])
           | inl e =>
               World (fs w) (calls w ++ [CallExists q; CallRename p q])
                 (sink w ++ [match e with
                             | PermissionError _ => PermissionDenied k (name p)
                             | _ => UnexpectedError e
                             end])
           end)).
Proof.
  split.
  - intros e dry_run He.
    pose proof (rename_item_outcome nfkd p k dry_run w) as H.
    now rewrite He in H.
  - intros q Hq Hne _ Hfree.
    destruct (with_name_inr p q _ Hq) as (dir & old & -> & Hold & -> & Hinv).
    rewrite name_last in *.
    apply (rename_item_attempt nfkd w dir old k Hold); try assumption.
    intros E. apply Hne. now rewrite E.
Qed.

Lemma rename_outcome_is_contained_witness :
  rename_item nfkd_latin1 (in_vault "___") FILE false (start tree_underscores)
  = (inl (ValueError_invalid_name []), start tree_underscores)
  /\ rename_item nfkd_latin1 (in_vault "My File.txt") FILE false
       (start tree_underscores)
     = (inr tt,
        World (Dir true [folder "vault" [file "___"; file "my-file.txt"]])
          [CallExists (in_vault "my-file.txt");
           CallRename (in_vault "My File.txt") (in_vault "my-file.txt")]
          [Success (str_of "My File.txt") (str_of "my-file.txt")]).
Proof.
  destruct (rename_outcome_is_contained nfkd_latin1 (start tree_underscores)
              (in_vault "___") FILE) as [Hraise _].
  destruct (rename_outcome_is_contained nfkd_latin1 (start tree_underscores)
              (in_vault "My File.txt") FILE) as [_ Hret].
  split.
  - now apply Hraise.
  - now apply (Hret (in_vault "my-file.txt")).
Defined.

(** ** The loop *)

Lemma process_entry_outcome (nfkd : str -> str) (dry_run : bool) (p : path)
  (w : world) :
  fst (process_entry nfkd dry_run p w)
  = match with_name p (sanitize_name nfkd (name p)) with
    | inl e => inl e
    | inr _ => inr tt
    end.
Proof.
  unfold process_entry, bind, path_is_dir.
  pose proof (rename_item_outcome nfkd p
                (if fs_is_dir (fs w) p then FOLDER else FILE) dry_run
                (called (CallIsDir p) w)) as H.
  destruct (with_name p (sanitize_name nfkd (name p))) as [e | q].
  - now rewrite H.
  - destruct (rename_item nfkd p _ dry_run (called (CallIsDir p) w))
      as [[e | []] w']; [discriminate H | reflexivity].
Qed.

Lemma for_each_completes_iff (nfkd : str -> str) (dry_run : bool)
  (l : list path) (w : world) :
  fst (for_each l (process_entry nfkd dry_run) w) = inr tt
  <-> Forall (fun p => exists q,
                with_name p (sanitize_name nfkd (name p)) = inr q) l.
Proof.
  revert w. induction l as [| p t IH]; intros w.
  - split; [constructor | reflexivity].
  - cbn [for_each]. unfold bind at 1.
    pose proof (process_entry_outcome nfkd dry_run p w) as H.
    destruct (process_entry nfkd dry_run p w) as [[e | []] w'];
      cbn [fst] in *.
    + split; [discriminate |]. intros Hall. apply Forall_inv in Hall.
      destruct Hall as [q Hq]. rewrite Hq in H. discriminate H.
    + rewrite IH. split.
      * intros Ht. constructor; [| exact Ht].
        destruct (with_name p (sanitize_name nfkd (name p))) as [e | q];
          [discriminate H | now exists q].
      * apply Forall_inv_tail.
Qed.

Lemma rename_files_present (nfkd : str -> str) (target_path : path)
  (dry_run : bool) (w : world) :
  fs_exists (fs w) target_path = true ->
  rename_files nfkd target_path dry_run w
  = for_each (processing_order (fs w) target_path) (process_entry nfkd dry_run)
      (World (fs w) (calls w ++ [CallExists target_path; CallRglob target_path])
         (sink w
          ++ [FoundItems (List.length (processing_order (fs w) target_path))])).
Proof.
  intros H. unfold rename_files, bind, path_exists, path_rglob, log, called.
  cbn [fs calls sink]. rewrite H. cbn [negb fs calls sink].
  now rewrite <- app_assoc.
Qed.

Lemma rename_files_missing (nfkd : str -> str) (target_path : path)
  (dry_run : bool) (w : world) :
  fs_exists (fs w) target_path = false ->
  rename_files nfkd target_path dry_run w
  = (inr tt,
     World (fs w) (calls w ++ [CallExists target_path])
       (sink w ++ [PathDoesNotExist target_path]))
  /\ processing_order (fs w) target_path = [].
Proof.
  intros H. split.
  - unfold rename_files, bind, path_exists, log, called.
    cbn [fs calls sink]. now rewrite H.
  - unfold processing_order, fs_rglob. unfold fs_exists in H.
    now destruct (resolve (fs w) target_path).
Qed.

(** X11. A run of [rename_files] that ends normally has had the
    sanitized name of every entry of its snapshot accepted by
    [with_name]: an entry whose sanitized name is empty or a single dot
    is never passed over in silence, it ends the run with the
    [ValueError]. *)
Theorem completed_run_accepted_every_name (nfkd : str -> str)
  (target_path : path) (dry_run : bool) (w : world) :
  fst (rename_files nfkd target_path dry_run w) = inr tt ->
  Forall (fun p => exists q,
            with_name p (sanitize_name nfkd (name p)) = inr q
            /\ invalid_name (sanitize_name nfkd (name p)) = false)
    (processing_order (fs w) target_path).
Proof.
  intros Hok.
  assert (Forall (fun p => exists q,
                    with_name p (sanitize_name nfkd (name p)) = inr q)
            (processing_order (fs w) target_path)) as Hall.
  { destruct (fs_exists (fs w) target_path) eqn:Hex.
    - rewrite (rename_files_present nfkd target_path dry_run w Hex) in Hok.
      exact (proj1 (for_each_completes_iff nfkd dry_run _ _) Hok).
    - destruct (rename_files_missing nfkd target_path dry_run w Hex)
        as [_ ->].
      constructor. }
  eapply Forall_impl; [| exact Hall].
  intros p [q Hq]. exists q. split; [exact Hq |].
  now destruct (with_name_inr p q _ Hq) as (_ & _ & _ & _ & _ & Hinv).
Qed.

Lemma completed_run_accepted_every_name_witness :
  Forall (fun p => exists q,
            with_name p (sanitize_name nfkd_latin1 (name p)) = inr q
            /\ invalid_name (sanitize_name nfkd_latin1 (name p)) = false)
    (processing_order (fs (start tree_nested)) vault).
Proof.
  apply (completed_run_accepted_every_name nfkd_latin1 vault false
           (start tree_nested)).
  reflexivity.
Defined.

(** ** Why the deepest entries go first *)



Lemma Forall_perm {A} (P : A -> Prop) (l l' : list A) :
  Permutation l l' -> Forall P l -> Forall P l'.
Proof.
  intros Hp H. apply Forall_forall. intros x Hx.
  apply (proj1 (Forall_forall _ _) H). now apply (Permutation_in _ (Permutation_sym Hp)).
Qed.


(** ** The snapshot of a well-formed tree *)

(** Every path of the snapshot runs through the root of the snapshot and
    goes on: the root itself is not in it, nor anything beside it. *)
Lemma descendants_extend (n : node) :
  forall pre p, In p (descendants pre n) ->
                exists rel, rel <> [] /\ p = pre ++ rel.
Proof.
  induction n as [| w es IH |] using node_induction; intros pre p Hin;
    try contradiction.
  cbn [descendants] in Hin. apply in_app_or in Hin. destruct Hin as [Hin | Hin].
  - apply in_map_iff in Hin. destruct Hin as (e & <- & _).
    exists [fst e]. split; [discriminate | reflexivity].
  - apply in_flat_map in Hin. destruct Hin as (e & He & Hin).
    destruct (proj1 (Forall_forall _ _) IH e He _ _ Hin) as (rel & _ & ->).
    exists (fst e :: rel). split; [discriminate |].
    now rewrite <- app_assoc.
Qed.








(** The other order does lose paths: with the directory first, its entry
    is gone when its turn comes. *)
Example parent_first_loses_the_child :
  sink (snd (for_each [in_vault "A"; [str_of "vault"; str_of "A"; str_of "b.TXT"]]
               (process_entry nfkd_latin1 false) (start tree_nested)))
  = [Success (str_of "A") (str_of "a");
     UnexpectedError
       (FileNotFoundError [str_of "vault"; str_of "A"; str_of "b.TXT"])].
Proof. reflexivity. Qed.

(** ** The trace of a run *)

Lemma probed_app (a b : list fs_call) : probed (a ++ b) = probed a ++ probed b.
Proof. apply flat_map_app. Qed.

Lemma rename_in_place_mono (nfkd : str -> str) (l l' : list path) (c : fs_call) :
  (forall p, In p l -> In p l') ->
  rename_in_place nfkd l c -> rename_in_place nfkd l' c.
Proof.
  intros Hl. destruct c; cbn; try trivial. intros (H1 & H2 & H3). auto.
Qed.

Lemma rename_item_calls (nfkd : str -> str) (p : path) (k : kind)
  (dry_run : bool) (w : world) :
  exists cs,
    calls (snd (rename_item nfkd p k dry_run w)) = calls w ++ cs
    /\ Forall (rename_in_place nfkd [p]) cs
    /\ probed cs = [].
Proof.
  unfold rename_item, bind, lift.
  destruct (with_name p (sanitize_name nfkd (name p))) as [e | q] eqn:Hq.
  { exists []. cbn. now rewrite app_nil_r. }
  destruct (path_eqb p q) eqn:Hpq.
  { exists []. cbn. now rewrite app_nil_r. }
  unfold path_exists, called. cbn [fst snd fs calls sink].
  destruct (fs_exists (fs w) q).
  { exists [CallExists q]. cbn. now repeat constructor. }
  destruct dry_run.
  { exists [CallExists q]. cbn. now repeat constructor. }
  exists [CallExists q; CallRename p q]. split; [| split; [| reflexivity]].
  - unfold try_except, path_rename, bind, called, log. cbn [fs calls sink].
    destruct (os_rename (fs w) p q) as [e | tree]; cbn [snd calls].
    + destruct e; cbn [snd calls]; now rewrite <- app_assoc.
    + now rewrite <- app_assoc.
  - constructor; [exact I |]. constructor; [| constructor].
    cbn. split; [now left |].
    destruct (with_name_inr p q _ Hq) as (dir & old & -> & _ & -> & _).
    rewrite removelast_last. split; [reflexivity |].
    intros E. rewrite E, path_eqb_refl in Hpq. discriminate Hpq.
Qed.

Lemma for_each_calls (nfkd : str -> str) (dry_run : bool) (l : list path) :
  forall w,
  exists cs,
    calls (snd (for_each l (process_entry nfkd dry_run) w)) = calls w ++ cs
    /\ Forall (rename_in_place nfkd l) cs
    /\ exists rest,
         l = probed cs ++ rest
         /\ (fst (for_each l (process_entry nfkd dry_run) w) = inr tt ->
             rest = []).
Proof.
  induction l as [| p t IH]; intros w.
  - exists []. cbn. rewrite app_nil_r. repeat split; [constructor |].
    now exists [].
  - cbn [for_each]. unfold bind at 1 2. unfold process_entry at 1 3.
    unfold bind at 1 2, path_is_dir.
    set (k := if fs_is_dir (fs w) p then FOLDER else FILE).
    destruct (rename_item_calls nfkd p k dry_run (called (CallIsDir p) w))
      as (cs1 & Hc1 & Hr1 & Hp1).
    destruct (rename_item nfkd p k dry_run (called (CallIsDir p) w))
      as [[e | []] w1]; cbn [fst snd calls called] in *.
    + exists (CallIsDir p :: cs1). split; [now rewrite Hc1, <- app_assoc |].
      split.
      * constructor; [exact I |].
        eapply Forall_impl; [| exact Hr1]. intros c.
        apply rename_in_place_mono. intros x [-> | []]. now left.
      * exists t. cbn [probed flat_map]. fold (probed cs1). rewrite Hp1.
        split; [reflexivity | discriminate].
    + destruct (IH w1) as (cs2 & Hc2 & Hr2 & rest & Hl & Hdone).
      exists (CallIsDir p :: cs1 ++ cs2). split; [| split].
      * rewrite Hc2, Hc1, <- !app_assoc. reflexivity.
      * constructor; [exact I |]. apply Forall_app. split.
        -- eapply Forall_impl; [| exact Hr1]. intros c.
           apply rename_in_place_mono. intros x [-> | []]. now left.
        -- eapply Forall_impl; [| exact Hr2]. intros c.
           apply rename_in_place_mono. intros x Hx. now right.
      * exists rest. split; [| exact Hdone].
        change (CallIsDir p :: cs1 ++ cs2) with ([CallIsDir p] ++ cs1 ++ cs2).
        rewrite !probed_app, Hp1. cbn [probed flat_map app].
        fold (probed cs2). now rewrite <- Hl.
Qed.

Lemma rename_files_calls (nfkd : str -> str) (target_path : path)
  (dry_run : bool) (w : world) :
  exists cs,
    calls (snd (rename_files nfkd target_path dry_run w)) = calls w ++ cs
    /\ Forall (rename_in_place nfkd (processing_order (fs w) target_path)) cs
    /\ exists rest,
         processing_order (fs w) target_path = probed cs ++ rest
         /\ (fst (rename_files nfkd target_path dry_run w) = inr tt ->
             rest = []).
Proof.
  destruct (fs_exists (fs w) target_path) eqn:Hex.
  - rewrite (rename_files_present nfkd target_path dry_run w Hex).
    set (w0 := World (fs w) _ _).
    destruct (for_each_calls nfkd dry_run
                (processing_order (fs w) target_path) w0)
      as (cs & Hc & Hr & rest & Hl & Hdone).
    exists ([CallExists target_path; CallRglob target_path] ++ cs).
    split; [| split].
    + rewrite Hc. unfold w0. cbn [calls]. now rewrite <- app_assoc.
    + apply Forall_app. split; [now repeat constructor | exact Hr].
    + exists rest. rewrite probed_app. now split.
  - destruct (rename_files_missing nfkd target_path dry_run w Hex) as [-> ->].
    exists [CallExists target_path]. cbn [snd calls fst].
    repeat split; [now repeat constructor |]. now exists [].
Qed.

(** X13. A run renames in place and inside the root only.  Every rename
    call of [rename_files] is made in apply mode, takes an entry of the
    snapshot, which lies strictly below the root, and gives it its
    sanitized name in the directory where it is: same parent, same depth,
    another name. *)
Theorem renames_stay_in_place (nfkd : str -> str) (target_path : path)
  (dry_run : bool) (w : world) :
  exists cs,
    calls (snd (rename_files nfkd target_path dry_run w)) = calls w ++ cs
    /\ forall src dst,
         In (CallRename src dst) cs ->
         dry_run = false
         /\ In src (fs_rglob (fs w) target_path)
         /\ is_ancestor target_path src
         /\ dst = removelast src ++ [sanitize_name nfkd (name src)]
         /\ dst <> src
         /\ parts_len dst = parts_len src.
Proof.
  destruct (rename_files_calls nfkd target_path dry_run w)
    as (cs & Hc & Hr & _).
  exists cs. split; [exact Hc |]. intros src dst Hin.
  pose proof (proj1 (Forall_forall _ _) Hr _ Hin) as (Hsrc & Hdst & Hne).
  cbn in Hsrc.
  assert (In src (fs_rglob (fs w) target_path)) as Hsnap.
  { apply (Permutation_in _ (sort_desc_perm parts_len _)). exact Hsrc. }
  split; [| split; [exact Hsnap | split; [| split; [exact Hdst | split]]]].
  - destruct dry_run; [exfalso | reflexivity].
    destruct (dry_rename_files nfkd target_path w)
      as (_ & (cs' & Hc' & Hcs') & _).
    rewrite Hc in Hc'. apply app_inv_head in Hc'. subst cs'.
    now apply (proj1 (Forall_forall _ _) Hcs') in Hin.
  - unfold fs_rglob in Hsnap.
    destruct (resolve (fs w) target_path) as [n |]; [| contradiction].
    exact (descendants_extend n _ _ Hsnap).
  - exact Hne.
  - subst dst. unfold parts_len. f_equal.
    destruct src as [| s src'] using rev_ind.
    + unfold fs_rglob in Hsnap.
      destruct (resolve (fs w) target_path) as [n |]; [| contradiction].
      destruct (descendants_extend n _ _ Hsnap) as (rel & Hrel & E).
      symmetry in E. apply app_eq_nil in E. now destruct E.
    + rewrite removelast_last, !length_app. reflexivity.
Qed.

(** X14. The loop looks at the entries in processing order, each once:
    the [is_dir] probes of a run are a prefix of the processing order,
    and all of it when the run ends normally. *)
Theorem probes_follow_processing_order (nfkd : str -> str)
  (target_path : path) (dry_run : bool) (w : world) :
  exists cs,
    calls (snd (rename_files nfkd target_path dry_run w)) = calls w ++ cs
    /\ exists rest,
         processing_order (fs w) target_path = probed cs ++ rest
         /\ (fst (rename_files nfkd target_path dry_run w) = inr tt ->
             probed cs = processing_order (fs w) target_path).
Proof.
  destruct (rename_files_calls nfkd target_path dry_run w)
    as (cs & Hc & _ & rest & Hl & Hdone).
  exists cs. split; [exact Hc |]. exists rest. split; [exact Hl |].
  intros Hok. rewrite Hl, (Hdone Hok). now rewrite app_nil_r.
Qed.

Lemma probes_follow_processing_order_witness :
  exists cs,
    calls (snd (rename_files nfkd_latin1 vault false (start tree_nested)))
    = calls (start tree_nested) ++ cs
    /\ probed cs = processing_order tree_nested vault.
Proof.
  destruct (probes_follow_processing_order nfkd_latin1 vault false
              (start tree_nested)) as (cs & Hc & rest & _ & Hall).
  exists cs. split; [exact Hc |]. apply Hall. reflexivity.
Defined.

Lemma renames_stay_in_place_witness :
  exists cs,
    calls (snd (rename_files nfkd_latin1 vault false (start tree_nested)))
    = calls (start tree_nested) ++ cs
    /\ (In (CallRename (in_vault "A") (in_vault "a")) cs ->
        is_ancestor vault (in_vault "A")).
Proof.
  destruct (renames_stay_in_place nfkd_latin1 vault false (start tree_nested))
    as (cs & Hc & Hall).
  exists cs. split; [exact Hc |]. intros Hin.
  now destruct (Hall _ _ Hin) as (_ & _ & H & _).
Defined.

(** ** The log tells what was changed *)

Lemma rename_item_success_or_same (nfkd : str -> str) (p : path) (k : kind)
  (dry_run : bool) (w : world) :
  exists rs,
    sink (snd (rename_item nfkd p k dry_run w)) = sink w ++ rs
    /\ (Forall (fun r => is_success r = false) rs ->
        fs (snd (rename_item nfkd p k dry_run w)) = fs w).
Proof.
  unfold rename_item, bind, lift.
  destruct (with_name p (sanitize_name nfkd (name p))) as [e | q].
  { exists []. cbn. now rewrite app_nil_r. }
  destruct (path_eqb p q).
  { exists []. cbn. now rewrite app_nil_r. }
  unfold path_exists, called. cbn [fst snd fs calls sink].
  destruct (fs_exists (fs w) q).
  { eexists. cbn. split; [reflexivity | trivial]. }
  destruct dry_run.
  { eexists. cbn. split; [reflexivity | trivial]. }
  unfold try_except, path_rename, bind, called, log. cbn [fs calls sink].
  destruct (os_rename (fs w) p q) as [e | tree]; cbn [snd fs sink].
  - destruct e; eexists; cbn [snd fs sink]; (split; [reflexivity | trivial]).
  - eexists. split; [reflexivity |].
    intros H. apply Forall_inv in H. discriminate H.
Qed.

Lemma for_each_success_or_same (nfkd : str -> str) (dry_run : bool)
  (l : list path) :
  forall w,
  exists rs,
    sink (snd (for_each l (process_entry nfkd dry_run) w)) = sink w ++ rs
    /\ (Forall (fun r => is_success r = false) rs ->
        fs (snd (for_each l (process_entry nfkd dry_run) w)) = fs w).
Proof.
  induction l as [| p t IH]; intros w.
  - exists []. cbn. now rewrite app_nil_r.
  - cbn [for_each]. unfold bind at 1 2. unfold process_entry at 1 3.
    unfold bind at 1 2, path_is_dir.
    set (k := if fs_is_dir (fs w) p then FOLDER else FILE).
    destruct (rename_item_success_or_same nfkd p k dry_run
                (called (CallIsDir p) w)) as (rs1 & Hs1 & Hf1).
    destruct (rename_item nfkd p k dry_run (called (CallIsDir p) w))
      as [[e | []] w1]; cbn [fst snd fs sink called] in *.
    + now exists rs1.
    + destruct (IH w1) as (rs2 & Hs2 & Hf2).
      exists (rs1 ++ rs2). split; [now rewrite Hs2, Hs1, app_assoc |].
      intros H. apply Forall_app in H. destruct H as [H1 H2].
      now rewrite (Hf2 H2), (Hf1 H1).
Qed.

(** X15. The log tells what was changed: a run whose records hold no
    success has left the tree exactly as it was.  Collisions, refused
    permissions, failed renames and an aborted run change nothing; only
    a rename that is reported as a success does. *)
Theorem no_success_no_change (nfkd : str -> str) (target_path : path)
  (dry_run : bool) (w : world) :
  exists rs,
    sink (snd (rename_files nfkd target_path dry_run w)) = sink w ++ rs
    /\ ((forall old_name new_name, ~ In (Success old_name new_name) rs) ->
        fs (snd (rename_files nfkd target_path dry_run w)) = fs w).
Proof.
  assert (exists rs,
             sink (snd (rename_files nfkd target_path dry_run w)) = sink w ++ rs
             /\ (Forall (fun r => is_success r = false) rs ->
                 fs (snd (rename_files nfkd target_path dry_run w)) = fs w))
    as (rs & Hs & Hf).
  { destruct (fs_exists (fs w) target_path) eqn:Hex.
    - rewrite (rename_files_present nfkd target_path dry_run w Hex).
      set (w0 := World (fs w) _ _).
      destruct (for_each_success_or_same nfkd dry_run
                  (processing_order (fs w) target_path) w0)
        as (rs & Hs & Hf).
      eexists. split.
      + rewrite Hs. unfold w0. cbn [sink]. now rewrite <- app_assoc.
      + intros H. apply Forall_app in H. now rewrite (Hf (proj2 H)).
    - destruct (rename_files_missing nfkd target_path dry_run w Hex) as [-> _].
      eexists. split; [reflexivity | trivial]. }
  exists rs. split; [exact Hs |]. intros Hno. apply Hf.
  apply Forall_forall. intros r Hr. destruct r; try reflexivity.
  now destruct (Hno _ _ Hr).
Qed.

Lemma no_success_no_change_witness :
  fs (snd (rename_files nfkd_latin1 vault false (start tree_collision)))
  = tree_collision.
Proof.
  destruct (no_success_no_change nfkd_latin1 vault false (start tree_collision))
    as (rs & Hs & Hf).
  rewrite Hf; [reflexivity |].
  change (sink (snd (rename_files nfkd_latin1 vault false
                       (start tree_collision))))
    with ([] ++ [FoundItems 2; NamingCollision (in_vault "file.txt")]) in Hs.
  cbn [sink start] in Hs. apply app_inv_head in Hs. subst rs.
  intros o n [H | [H | []]]; discriminate H.
Defined.

(** ** The command *)

Lemma run_sanitizer_on_dir (nfkd : str -> str) (p : path) (apply : bool)
  (w : world) :
  fs_is_dir (fs w) p = true ->
  run_sanitizer nfkd p apply w
  = rename_files nfkd p (negb apply)
      (World (fs w) (calls w ++ [CallStat p])
         (sink w ++ [Scanning p;
                     if negb apply then EchoDryRunMode else EchoLiveMode])).
Proof.
  unfold fs_is_dir, run_sanitizer, bind, path_stat, log, called.
  cbn [fs calls sink].
  destruct (resolve (fs w) p) as [[| wr es |] |]; try discriminate.
  intros _. cbn [fs calls sink]. now rewrite <- app_assoc.
Qed.

Lemma run_sanitizer_refuses (nfkd : str -> str) (p : path) (apply : bool)
  (w : world) :
  fs_is_dir (fs w) p = false ->
  run_sanitizer nfkd p apply w = (inl (BadParameter p), called (CallStat p) w).
Proof.
  unfold fs_is_dir, run_sanitizer, bind, path_stat, raise.
  destruct (resolve (fs w) p) as [[| wr es |] |]; try discriminate; reflexivity.
Qed.

(** X16. Without [--apply] the command changes nothing: [run_sanitizer]
    then runs [rename_files] as a dry run, so whatever the path given,
    the tree is as it was and no rename call is made. *)
Theorem run_sanitizer_default_is_dry (nfkd : str -> str) (p : path)
  (w : world) :
  fs (snd (run_sanitizer nfkd p false w)) = fs w
  /\ exists cs,
       calls (snd (run_sanitizer nfkd p false w)) = calls w ++ cs
       /\ forall src dst, ~ In (CallRename src dst) cs.
Proof.
  assert (forall cs, Forall (fun c => is_rename c = false) cs ->
                     forall src dst, ~ In (CallRename src dst) cs) as Hno.
  { intros cs Hcs src dst Hin.
    now apply (proj1 (Forall_forall _ _) Hcs) in Hin. }
  destruct (fs_is_dir (fs w) p) eqn:Hdir.
  - rewrite (run_sanitizer_on_dir nfkd p false w Hdir). cbn [negb].
    set (w0 := World (fs w) _ _).
    destruct (dry_rename_files nfkd p w0) as (Hfs & (cs & Hc & Hcs) & _).
    split; [exact Hfs |].
    exists ([CallStat p] ++ cs). split.
    + rewrite Hc. unfold w0. cbn [calls]. now rewrite <- app_assoc.
    + apply Hno. apply Forall_app. split; [now repeat constructor | exact Hcs].
  - rewrite (run_sanitizer_refuses nfkd p false w Hdir).
    split; [reflexivity |]. exists [CallStat p]. split; [reflexivity |].
    apply Hno. now repeat constructor.
Qed.

(** ** The order of the loop *)

(** X17. The processing order is the snapshot sorted by depth, deepest
    first, and nothing else is moved: depth never increases along it,
    and the entries of any one depth come in the order the snapshot had
    them. *)
Theorem processing_order_sorted_stable (root : node) (target_path : path) :
  StronglySorted (fun a b => (parts_len b <= parts_len a)%nat)
    (processing_order root target_path)
  /\ forall depth,
       filter (fun p => (parts_len p =? depth)%nat)
         (processing_order root target_path)
       = filter (fun p => (parts_len p =? depth)%nat)
           (fs_rglob root target_path).
Proof.
  split; [apply sort_desc_sorted |]. intros depth. apply sort_desc_stable.
Qed.

(** ** The tree after a rename *)



(** ** An apply run that reports successes only *)




Lemma for_each_cons {A} (body : A -> M unit) (x : A) (t : list A) (w : world) :
  for_each (x :: t) body w
  = match body x w with
    | (inr _, w') => for_each t body w'
    | (inl e, w') => (inl e, w')
    end.
Proof. reflexivity. Qed.





(** ** A tree that is sanitized already *)

Lemma for_each_all_unchanged (nfkd : str -> str) (dry_run : bool)
  (l : list path) :
  forall w,
    Forall (fun p => valid_name (name p) = true
                     /\ sanitize_name nfkd (name p) = name p) l ->
    for_each l (process_entry nfkd dry_run) w
    = (inr tt, World (fs w) (calls w ++ map CallIsDir l) (sink w)).
Proof.
  induction l as [| p t IH]; intros w Hall.
  - cbn. rewrite app_nil_r. now destruct w.
  - inversion Hall as [| ? ? [Hv Hs] Ht]; subst.
    rewrite for_each_cons. unfold process_entry at 1, bind, path_is_dir.
    rewrite (rename_item_unchanged nfkd _ p _ dry_run Hv Hs).
    rewrite (IH _ Ht). cbn [fs calls sink called map].
    now rewrite <- app_assoc.
Qed.

Lemma rename_files_all_unchanged (nfkd : str -> str) (target_path : path)
  (dry_run : bool) (w : world) :
  fs_exists (fs w) target_path = true ->
  Forall (fun p => valid_name (name p) = true
                   /\ sanitize_name nfkd (name p) = name p)
    (fs_rglob (fs w) target_path) ->
  rename_files nfkd target_path dry_run w
  = (inr tt,
     World (fs w)
       (calls w ++ [CallExists target_path; CallRglob target_path]
        ++ map CallIsDir (processing_order (fs w) target_path))
       (sink w
        ++ [FoundItems (List.length (fs_rglob (fs w) target_path))])).
Proof.
  intros Hex Hall.
  rewrite (rename_files_present nfkd target_path dry_run w Hex).
  pose proof (sort_desc_perm parts_len (fs_rglob (fs w) target_path)) as Hp.
  fold (processing_order (fs w) target_path) in Hp.
  rewrite for_each_all_unchanged
    by exact (Forall_perm _ _ _ (Permutation_sym Hp) Hall).
  cbn [fs calls sink]. rewrite <- app_assoc.
  now rewrite (Permutation_length Hp).
Qed.

(** X19. On a tree whose names are their own sanitized forms a run
    that ends normally has done nothing and said nothing: in either mode
    the tree is as it was, the only record is the count of items, and the
    only calls are the snapshot and one [is_dir] probe for each entry. *)
Theorem sanitized_tree_is_left_alone (nfkd : str -> str) (target_path : path)
  (dry_run : bool) (w : world) :
  fs_exists (fs w) target_path = true ->
  Forall (fun p => valid_name (name p) = true
                   /\ sanitize_name nfkd (name p) = name p)
    (fs_rglob (fs w) target_path) ->
  fst (rename_files nfkd target_path dry_run w) = inr tt ->
  snd (rename_files nfkd target_path dry_run w)
  = World (fs w)
      (calls w ++ [CallExists target_path; CallRglob target_path]
       ++ map CallIsDir (processing_order (fs w) target_path))
      (sink w
       ++ [FoundItems (List.length (fs_rglob (fs w) target_path))]).
Proof.
  intros Hex Hall _.
  now rewrite (rename_files_all_unchanged nfkd target_path dry_run w Hex Hall).
Qed.

Lemma sanitized_tree_is_left_alone_witness :
  snd (rename_files nfkd_latin1 vault false (start tree_clean))
  = World tree_clean
      [CallExists vault; CallRglob vault; CallIsDir (in_vault "notes.txt")]
      [FoundItems 1].
Proof.
  apply (sanitized_tree_is_left_alone nfkd_latin1 vault false
           (start tree_clean)); [reflexivity | | reflexivity].
  repeat constructor.
Defined.




(** A dry run reads the tree as it is, so it does not foresee a collision
    that an earlier rename of the same run would create: two names with
    one sanitized form are both announced, and the apply run renames the
    first and skips the second. *)
Example dry_run_misses_sibling_collision :
  sink (snd (rename_files nfkd_latin1 vault true
               (start (Dir true [folder "vault" [file "a b"; file "a_b"]]))))
  = [FoundItems 2; DryRun FILE (str_of "a b") (str_of "a-b");
     DryRun FILE (str_of "a_b") (str_of "a-b")]
  /\ sink (snd (rename_files nfkd_latin1 vault false
                  (start (Dir true [folder "vault" [file "a b"; file "a_b"]]))))
     = [FoundItems 2; Success (str_of "a b") (str_of "a-b");
        NamingCollision (in_vault "a-b")].
Proof. split; reflexivity. Qed.
